(** * tuitionTable.py: tiered tuition table

    A shallow embedding of [src/tuitionTable.py].  A Python [int] is a [Z], a
    Python [float] is the kernel's binary64 [float] (specified by
    [SpecFloat]), a [dict] with string keys is a [gmap string _], a raised
    exception is the [Raise] branch of [result], and the process state that
    [main] touches (the two output streams and the files on disk) is threaded
    as a [world]. *)

From Stdlib Require Import ZArith Floats Lia List.
From stdpp Require Import base option strings gmap pretty.
Import ListNotations.

Set Warnings "-inexact-float".
Local Open Scope string_scope.
Local Open Scope Z_scope.

(** ** Exceptions and results *)

(** [OSError] stands for the class and its subclasses; [report] is the line
    the interpreter prints for the exception, with the class name and the
    text of the operating system. *)
Inductive exn : Type :=
  | KeyError (key : string)
  | OverflowError (msg : string)
  | RuntimeError (msg : string)
  | OSError (report : string)
  | MemoryError.

Inductive result (A : Type) : Type :=
  | Ok (a : A)
  | Raise (e : exn).
Arguments Ok {A} a.
Arguments Raise {A} e.

Definition rbind {A B : Type} (m : result A) (k : A -> result B) : result B :=
  match m with
  | Ok a => k a
  | Raise e => Raise e
  end.

#[global] Instance result_ret : MRet result := fun A a => Ok a.
#[global] Instance result_bind : MBind result := fun A B k m => rbind m k.

(** ** Numbers *)

(** Converting an [int] to a [float] rounds to the nearest binary64 value,
    ties to even, and raises when the rounded value is not finite.  The first
    [int] for which this happens is [2^1024 - 2^970], half way between the
    largest finite value and [2^1024]. *)
Definition FLOAT_INT_LIMIT : Z := 2 ^ 1024 - 2 ^ 970.

Definition float_of_int (i : Z) : result float :=
  match binary_normalize prec emax i 0 false with
  | S754_infinity _ => Raise (OverflowError "int too large to convert to float")
  | sf => Ok (SF2Prim sf)
  end.

(** [i * f] with [i] an [int] and [f] a [float]: the [int] is converted first. *)
Definition int_mul_float (i : Z) (f : float) : result float :=
  x ← float_of_int i; Ok (x * f)%float.

(** The [float] that the decimal literal [digits / 10^places] denotes: for
    the literals of this program both numbers are exact in binary64, so the
    division rounds the decimal once, to the nearest value. *)
Definition decimal (digits places : Z) : float :=
  SF2Prim (SF64div (binary_normalize prec emax digits 0 false)
                   (binary_normalize prec emax (10 ^ places) 0 false)).

(** [M / 2^k] rounded to the nearest integer, ties to even. *)
Definition rne (M k : Z) : Z :=
  let q := M / 2 ^ k in
  match 2 * (M mod 2 ^ k) ?= 2 ^ k with
  | Lt => q
  | Eq => if Z.even q then q else q + 1
  | Gt => q + 1
  end.

Definition two_digits (d : Z) : string :=
  if d <? 10 then "0" +:+ pretty d else pretty d.

(** [f"{x:.2f}"]: the exact binary value rounded to two decimals, ties to
    even. *)
Definition format_2f (x : float) : string :=
  match Prim2SF x with
  | S754_nan => "nan"
  | S754_infinity s => if s then "-inf" else "inf"
  | S754_zero s => (if s then "-" else "") +:+ "0.00"
  | S754_finite s m e =>
      let n := if 0 <=? e then Z.pos m * 100 * 2 ^ e
               else rne (Z.pos m * 100) (- e) in
      (if s then "-" else "") +:+ pretty (n / 100) +:+ "." +:+ two_digits (n mod 100)
  end.

(** ** Rate table *)

Definition TUITION_RATES : gmap string (gmap string float) :=
  {[ "resident" :=
       {[ "lower_first_10" := 123.94%float;
          "lower_after_10" := 57.78%float;
          "upper_first_10" := 133.54%float;
          "upper_after_10" := 67.38%float ]};
     "non-resident" :=
       {[ "lower_first_10" := 274.84%float;
          "lower_after_10" := 208.68%float;
          "upper_first_10" := 284.44%float;
          "upper_after_10" := 218.28%float ]} ]}.

(** [d[k]] on a [dict]. *)
Definition getitem {V : Type} (d : gmap string V) (k : string) : result V :=
  match d !! k with
  | Some v => Ok v
  | None => Raise (KeyError k)
  end.

(** A [dict] that carries the four rates. *)
Record rate_set (rates : gmap string float) (lf la uf ua : float) : Prop := {
  rs_lower_first : rates !! "lower_first_10" = Some lf;
  rs_lower_after : rates !! "lower_after_10" = Some la;
  rs_upper_first : rates !! "upper_first_10" = Some uf;
  rs_upper_after : rates !! "upper_after_10" = Some ua
}.

(** ** Cost calculator *)

Definition total_cost (credits : Z) (first_10_rate after_10_rate : float)
  : result float :=
  if credits <=? 10 then int_mul_float credits first_10_rate
  else
    a ← int_mul_float 10 first_10_rate;
    b ← int_mul_float (credits - 10) after_10_rate;
    Ok (a + b)%float.

(** ** Row builder *)

(** A row is the three-element list [[credits, lower_total, upper_total]]. *)
Definition row : Type := Z * float * float.

(** One pass through the body of the [for] loop. *)
Definition build_row (rates : gmap string float) (credits : Z) : result row :=
  lf ← getitem rates "lower_first_10";
  la ← getitem rates "lower_after_10";
  lower_total ← total_cost credits lf la;
  uf ← getitem rates "upper_first_10";
  ua ← getitem rates "upper_after_10";
  upper_total ← total_cost credits uf ua;
  Ok (credits, lower_total, upper_total).

(** [range(start, stop)]. *)
Definition range (start stop : Z) : list Z :=
  map (fun k => start + Z.of_nat k) (seq 0 (Z.to_nat (stop - start))).

(** The [for] loop over the credit counts still to come, with the list built
    so far; [rows.append] puts the new row at the end.  Here the memory holds
    every row; the loop on a machine with bounded memory follows below, and
    agrees with this one as long as the rows fit. *)
Fixpoint build_rows_loop (rates : gmap string float) (todo : list Z)
    (rows : list row) : result (list row) :=
  match todo with
  | [] => Ok rows
  | credits :: todo' =>
      r ← build_row rates credits;
      build_rows_loop rates todo' (rows ++ [r])%list
  end.

Definition build_rows (max_credits : Z) (rates : gmap string float)
  : result (list row) :=
  build_rows_loop rates (range 1 (max_credits + 1)) [].

(** *** The same function on a store of list objects

    [rows = []] allocates a new list object and [rows.append] updates it in
    place; the caller receives the reference. *)
Module Heap.

Abbreviation store := (gmap nat (list row)).

Definition new_list (st : store) : nat * store :=
  let l := fresh (dom st) in (l, <[l := []]> st).

Definition append (l : nat) (r : row) (st : store) : store :=
  alter (fun rows => (rows ++ [r])%list) l st.

Fixpoint build_rows_loop (rates : gmap string float) (todo : list Z)
    (l : nat) (st : store) : store * result unit :=
  match todo with
  | [] => (st, Ok tt)
  | credits :: todo' =>
      match build_row rates credits with
      | Ok r => build_rows_loop rates todo' l (append l r st)
      | Raise e => (st, Raise e)
      end
  end.

Definition build_rows (max_credits : Z) (rates : gmap string float)
    (st : store) : store * result nat :=
  let '(l, st1) := new_list st in
  match build_rows_loop rates (range 1 (max_credits + 1)) l st1 with
  | (st2, Ok _) => (st2, Ok l)
  | (st2, Raise e) => (st2, Raise e)
  end.


End Heap.

(** *** The same function on a machine with bounded memory

    [rows] holds one more reference after every pass of the loop.  How many
    the memory of the process can hold is a matter of the machine:
    [capacity] rows.  Whatever the memory, a list of CPython holds at most
    [PY_SSIZE_T_MAX / 8 = 2^60 - 1] references.  An [append] past that room
    raises [MemoryError]. *)
Module Machine.

Definition LIST_MAX : Z := 2 ^ 60 - 1.

Definition room (capacity : Z) : Z := Z.min capacity LIST_MAX.

Fixpoint build_rows_loop (room : Z) (rates : gmap string float) (todo : list Z)
    (rows : list row) : result (list row) :=
  match todo with
  | [] => Ok rows
  | credits :: todo' =>
      r ← build_row rates credits;
      if Z.of_nat (length rows) <? room
      then build_rows_loop room rates todo' (rows ++ [r])%list
      else Raise MemoryError
  end.

Definition build_rows (capacity : Z) (max_credits : Z) (rates : gmap string float)
  : result (list row) :=
  build_rows_loop (room capacity) rates (range 1 (max_credits + 1)) [].

End Machine.

(** ** Table writer *)

(** The workbook object as [write_xlsx] fills it: a cell holds the value
    assigned to it, a total as the [float] it is, and its number format.
    What [workbook.save] writes for it is a matter of [openpyxl], and the
    file need not show the same digits: [xlsx_bytes] below. *)
Inductive cell_value : Type :=
  | CInt (z : Z)
  | CFloat (f : float)
  | CStr (s : string).

Record cell : Type := { value : cell_value; number_format : string }.

Record workbook : Type := { title : string; sheet : list (list cell) }.

Definition plain (v : cell_value) : cell :=
  {| value := v; number_format := "General" |}.

Definition money_format : string := "$#,##0.00".

Definition money (v : cell_value) : cell :=
  {| value := v; number_format := money_format |}.

Definition header : list cell :=
  [ plain (CStr "# of Credits");
    plain (CStr "Tuition Cost for Lower-Division");
    plain (CStr "Tuition Cost for Upper-Division") ].

Definition data_row (r : row) : list cell :=
  let '(credits, lower_total, upper_total) := r in
  [ plain (CInt credits); money (CFloat lower_total); money (CFloat upper_total) ].

(** What becomes of the lines printed on standard output. *)
Inductive stream : Type :=
  (** every line arrives *)
  | Accepting
  (** [sys.stdout] is [None]: [print] does nothing *)
  | Closed
  (** writing fails at once: [print] raises [OSError] with this report *)
  | Unwritable (report : string)
  (** [print] keeps the line in the buffer, and the flush at exit fails: the
      interpreter writes these lines on standard error and the exit status
      becomes 120 *)
  | Unflushable (report : list string).

(** How [workbook.save] ends for a path: the file is written, or an
    [OSError] is raised, and [remains] is what the attempt leaves at the path,
    if anything (a file that was opened and not completed). *)
Inductive saving : Type :=
  | Saved
  | Failed (report : string) (remains : option string).

(** What the process cannot decide by itself. *)
Record env : Type := {
  (** the number of rows that the memory of the process can hold *)
  capacity : Z;
  (** whether [openpyxl] can be imported *)
  openpyxl_available : bool;
  (** the bytes that [workbook.save] writes for a workbook *)
  xlsx_bytes : workbook -> string;
  (** how [workbook.save] ends for a path *)
  save : string -> saving;
  (** the state of standard output *)
  standard_output : stream;
  (** the lines that [argparse] prints for a residency outside the choices *)
  usage_error : string -> list string;
  (** the lines of a traceback that name the stack frames *)
  frames : exn -> list string
}.

(** What a run can change: the two streams and the files. *)
Record world : Type := {
  stdout : list string;
  stderr : list string;
  files : gmap string string
}.

Definition set_files (fs : gmap string string) (w : world) : world :=
  {| stdout := stdout w; stderr := stderr w; files := fs |}.

Definition openpyxl_missing : string :=
  "openpyxl is required to create .xlsx files. Install it with: pip install openpyxl".

(** [write_xlsx]; the files are kept as their contents.  The import of
    [openpyxl] comes first, the save last. *)
Definition write_xlsx (ev : env) (output_filename : string) (rows : list row)
    (w : world) : world * result unit :=
  if negb (openpyxl_available ev) then (w, Raise (RuntimeError openpyxl_missing))
  else
    let wb := {| title := "Tuition"; sheet := header :: map data_row rows |} in
    match save ev output_filename with
    | Saved => (set_files (<[output_filename := xlsx_bytes ev wb]> (files w)) w, Ok tt)
    | Failed report None => (w, Raise (OSError report))
    | Failed report (Some part) =>
        (set_files (<[output_filename := part]> (files w)) w, Raise (OSError report))
    end.

(** ** Entry point *)

(** The [Namespace] that [parse_args] returns. *)
Record Namespace : Type := {
  residency : string;
  max_credits : Z;
  output : option string
}.

Definition choices : list string := ["resident"; "non-resident"].

(** [print(line)].  With a buffer that cannot be flushed the line stays in
    [stdout] until the exit. *)
Definition print (ev : env) (line : string) (w : world) : result world :=
  match standard_output ev with
  | Accepting | Unflushable _ =>
      Ok {| stdout := (stdout w ++ [line])%list; stderr := stderr w;
            files := files w |}
  | Closed => Ok w
  | Unwritable report => Raise (OSError report)
  end.

(** [print(line, file=sys.stderr)]. *)
Definition print_err (line : string) (w : world) : world :=
  {| stdout := stdout w; stderr := (stderr w ++ [line])%list; files := files w |}.

(** Truth value of [args.output]: [None] and the empty string are false. *)
Definition truthy (o : option string) : bool :=
  match o with
  | Some s => negb (String.eqb s "")
  | None => false
  end.

Definition output_filename (args : Namespace) : string :=
  if truthy (output args) then default "" (output args)
  else "tuition_" +:+ residency args +:+ "_1_to_" +:+ pretty (max_credits args)
       +:+ ".xlsx".

Definition rates_line (rates : gmap string float) : result string :=
  lf ← getitem rates "lower_first_10";
  la ← getitem rates "lower_after_10";
  uf ← getitem rates "upper_first_10";
  ua ← getitem rates "upper_after_10";
  Ok ("Rates used: lower 1-10=$" +:+ format_2f lf +:+
      ", lower 11+=$" +:+ format_2f la +:+
      ", upper 1-10=$" +:+ format_2f uf +:+
      ", upper 11+=$" +:+ format_2f ua).

(** The two [print] calls that end [main], after the file is saved. *)
Definition report_success (ev : env) (args : Namespace)
    (rates : gmap string float) (w : world) : world * result Z :=
  match print ev ("Created " +:+ output_filename args) w with
  | Raise e => (w, Raise e)
  | Ok w1 =>
      match rates_line rates with
      | Raise e => (w1, Raise e)
      | Ok line =>
          match print ev line w1 with
          | Raise e => (w1, Raise e)
          | Ok w2 => (w2, Ok 0)
          end
      end
  end.

(** [main], from the [Namespace] that [parse_args] produced.  The result is
    the value returned, or the exception that leaves [main]. *)
Definition main (ev : env) (args : Namespace) (w : world) : world * result Z :=
  if max_credits args <? 1 then
    (print_err "Error: max_credits must be at least 1." w, Ok 2)
  else
    match getitem TUITION_RATES (residency args) with
    | Raise e => (w, Raise e)
    | Ok rates =>
        match Machine.build_rows (capacity ev) (max_credits args) rates with
        | Raise e => (w, Raise e)
        | Ok rows =>
            match write_xlsx ev (output_filename args) rows w with
            | (w1, Raise (RuntimeError msg)) =>
                (print_err ("Error: " +:+ msg) w1, Ok 1)
            | (w1, Raise e) => (w1, Raise e)
            | (w1, Ok _) => report_success ev args rates w1
            end
        end
    end.

(** The last line of a traceback. *)
Definition exn_line (e : exn) : string :=
  match e with
  | KeyError k => "KeyError: '" +:+ k +:+ "'"
  | OverflowError m => "OverflowError: " +:+ m
  | RuntimeError m => "RuntimeError: " +:+ m
  | OSError report => report
  | MemoryError => "MemoryError"
  end.

(** What the interpreter writes for an exception nobody caught. *)
Definition traceback (ev : env) (e : exn) : list string :=
  ("Traceback (most recent call last):" :: frames ev e ++ [exn_line e])%list.

Definition print_err_lines (lines : list string) (w : world) : world :=
  fold_left (fun w0 line => print_err line w0) lines w.

(** The flush of standard output when the interpreter exits: when lines are
    buffered and the flush fails, they are lost, the interpreter reports it
    on standard error and the exit status is 120. *)
Definition at_exit (ev : env) (w : world) (ending : world * Z) : world * Z :=
  match standard_output ev with
  | Unflushable report =>
      if bool_decide (stdout ending.1 = stdout w) then ending
      else ({| stdout := stdout w;
               stderr := (stderr ending.1 ++ report)%list;
               files := files ending.1 |}, 120)
  | _ => ending
  end.

(** The program from the command line on.  [parse_args] lets [argparse]
    check the residency against the choices: outside them, [argparse] prints
    its usage text and exits with status 2.  Otherwise
    [raise SystemExit(main())] gives the value of [main] as exit status, and
    an exception nobody caught gives a traceback and status 1. *)
Definition run (ev : env) (args : Namespace) (w : world) : world * Z :=
  if decide (residency args ∈ choices) then
    at_exit ev w
      match main ev args w with
      | (w', Ok code) => (w', code)
      | (w', Raise e) => (print_err_lines (traceback ev e) w', 1)
      end
  else
    (print_err_lines (usage_error ev (residency args)) w, 2).

(** A machine for the examples: room for a million rows, nothing in the way
    of writing files or lines, and [openpyxl] installed or not. *)
Definition desk (with_openpyxl : bool) : env :=
  {| capacity := 1000000;
     openpyxl_available := with_openpyxl;
     xlsx_bytes := fun wb => title wb;
     save := fun _ => Saved;
     standard_output := Accepting;
     usage_error := fun name => ["usage: tuitionTable.py"; "invalid choice: " +:+ name];
     frames := fun _ => [] |}.

Definition nothing : world := {| stdout := []; stderr := []; files := ∅ |}.

(** ** Values of binary64 numbers

    The proofs about rounding read a non-negative [spec_float] as an integer
    number of units of [2^-1074], the smallest positive binary64 value;
    infinity is read as [TOP], the image of [2^1024]. *)

Definition TOP : Z := 2 ^ 2098.

Definition aval (x : spec_float) : Z :=
  match x with
  | S754_zero _ => 0
  | S754_infinity _ => TOP
  | S754_nan => 0
  | S754_finite _ m e => Z.pos m * 2 ^ (e + 1074)
  end.

Definition nonneg_sf (x : spec_float) : bool :=
  match x with
  | S754_zero _ => true
  | S754_infinity s => negb s
  | S754_nan => false
  | S754_finite s _ _ => negb s
  end.

(** Rounding of [V / 2^S] to binary64, in units of [2^-1074] and before the
    overflow test. *)
Definition RN (S V : Z) : Z :=
  let n := Z.max (Z.log2 V + 1 - 53) (S - 1074) in
  rne V n * 2 ^ (n - (S - 1074)).

(** The position of a remainder [r] below [2^k], as [shr] records it. *)
Definition locz (r k : Z) : location :=
  if r =? 0 then loc_Exact else loc_Inexact (2 * r ?= 2 ^ k).

(** The last step of [binary_round_aux] for a positive sign. *)
Definition finish (mrs : shr_record) (e : Z) : spec_float :=
  match shr_m mrs with
  | Z0 => S754_zero false
  | Z.pos m => if e <=? emax - prec then S754_finite false m e else S754_infinity false
  | Z.neg _ => S754_nan
  end.

(** [r] is the binary64 number that the value [v] rounds to. *)
Definition good (r : spec_float) (v : Z) : Prop :=
  valid_binary r = true /\ nonneg_sf r = true /\ aval r = Z.min TOP v.

(** The value of a product whose first factor is positive and finite. *)
Definition pmul (ax af : Z) : Z :=
  if af =? 0 then 0
  else if af =? TOP then TOP
  else Z.min TOP (RN 2148 (ax * af)).

(** The value of [float(i)] for a positive [i] below the limit. *)
Definition ival (i : Z) : Z := RN 1074 (i * 2 ^ 1074).

(** The value that [total_cost] returns, from the values of the two rates. *)
Definition cost_value (credits af aa : Z) : Z :=
  if credits <=? 10 then pmul (ival credits) af
  else Z.min TOP (RN 1074 (pmul (ival 10) af + pmul (ival (credits - 10)) aa)).

(** [0.0 <= f]. *)
Definition nonneg (f : float) : Prop := (0 <=? f)%float = true.

(** The four keys that [build_rows] reads, in the order it reads them. *)
Definition rate_keys : list string :=
  ["lower_first_10"; "lower_after_10"; "upper_first_10"; "upper_after_10"].

(** The tiered cost in exact integer arithmetic. *)
Definition tier_total (credits F A : Z) : Z :=
  if credits <=? 10 then credits * F else 10 * F + (credits - 10) * A.

(** The [float] [x] is exactly the non-negative integer [n]. *)
Definition whole (x : float) (n : Z) : Prop :=
  nonneg_sf (Prim2SF x) = true /\ aval (Prim2SF x) = n * 2 ^ 1074.

(** * Properties *)

(** ** Rounding on integers *)

Lemma pow2_pos k : 0 <= k -> 0 < 2 ^ k.
Proof. intros. apply Z.pow_pos_nonneg; lia. Qed.

Lemma pow2_le a b : 0 <= a <= b -> 2 ^ a <= 2 ^ b.
Proof. intros. apply Z.pow_le_mono_r; lia. Qed.

Lemma pow2_lt a b : 0 <= a < b -> 2 ^ a < 2 ^ b.
Proof. intros. apply Z.pow_lt_mono_r; lia. Qed.

Lemma rne_bounds M k : M / 2 ^ k <= rne M k <= M / 2 ^ k + 1.
Proof.
  unfold rne. destruct (_ ?= _); [destruct (Z.even _)|..]; lia.
Qed.

Lemma rne_mono M1 M2 k : 0 <= k -> M1 <= M2 -> rne M1 k <= rne M2 k.
Proof.
  intros Hk HM. pose proof (pow2_pos k Hk) as HP.
  pose proof (rne_bounds M1 k) as B1. pose proof (rne_bounds M2 k) as B2.
  assert (Hq : M1 / 2 ^ k <= M2 / 2 ^ k) by (apply Z.div_le_mono; lia).
  destruct (Z.eq_dec (M1 / 2 ^ k) (M2 / 2 ^ k)) as [E|NE]; [|lia].
  pose proof (Z.div_mod M1 (2 ^ k) ltac:(lia)) as D1.
  pose proof (Z.div_mod M2 (2 ^ k) ltac:(lia)) as D2.
  assert (Hr : M1 mod 2 ^ k <= M2 mod 2 ^ k) by (rewrite E in D1; lia).
  unfold rne. rewrite E.
  destruct (Z.compare_spec (2 * (M1 mod 2 ^ k)) (2 ^ k));
    destruct (Z.compare_spec (2 * (M2 mod 2 ^ k)) (2 ^ k));
    destruct (Z.even (M2 / 2 ^ k)); lia.
Qed.

Lemma rne_scale M k j : 0 <= j -> 0 <= k -> rne (M * 2 ^ j) (k + j) = rne M k.
Proof.
  intros Hj Hk. pose proof (pow2_pos k Hk). pose proof (pow2_pos j Hj).
  unfold rne. rewrite Z.pow_add_r by lia.
  rewrite Z.div_mul_cancel_r by lia.
  rewrite Z.mul_mod_distr_r by lia.
  replace (2 * (M mod 2 ^ k * 2 ^ j)) with ((2 * (M mod 2 ^ k)) * 2 ^ j) by ring.
  rewrite <- Zmult_compare_compat_r by lia. reflexivity.
Qed.

Lemma rne_exact q k : 0 <= k -> rne (q * 2 ^ k) k = q.
Proof.
  intros Hk. pose proof (pow2_pos k Hk). unfold rne.
  rewrite Z.div_mul, Z.mod_mul by lia.
  destruct (Z.compare_spec (2 * 0) (2 ^ k)); lia.
Qed.

Lemma rne_0 M : rne M 0 = M.
Proof. rewrite <- (rne_exact M 0) at 2 by lia. f_equal. simpl. lia. Qed.

Lemma log2_bounds V : 0 < V -> 2 ^ Z.log2 V <= V < 2 ^ (Z.log2 V + 1).
Proof. intros. pose proof (Z.log2_spec V). replace (Z.log2 V + 1) with (Z.succ (Z.log2 V)) by lia. auto. Qed.

Lemma RN_mono S V1 V2 : 1074 <= S -> 0 < V1 -> V1 <= V2 -> RN S V1 <= RN S V2.
Proof.
  intros HS H1 H12. unfold RN.
  set (n0 := S - 1074).
  assert (Hn0 : 0 <= n0) by (unfold n0; lia).
  pose proof (Z.log2_le_mono V1 V2 H12) as HL.
  pose proof (Z.log2_nonneg V1) as HL1.
  pose proof (log2_bounds V1 H1) as B1.
  pose proof (log2_bounds V2 ltac:(lia)) as B2.
  set (L1 := Z.log2 V1) in *. set (L2 := Z.log2 V2) in *.
  set (n1 := Z.max (L1 + 1 - 53) n0). set (n2 := Z.max (L2 + 1 - 53) n0).
  destruct (Z.eq_dec n1 n2) as [E|NE].
  - rewrite E. apply Z.mul_le_mono_nonneg_r.
    + apply Z.lt_le_incl, pow2_pos. lia.
    + apply rne_mono; lia.
  - assert (Hlt : n1 < n2) by lia.
    assert (Hn2 : n2 = L2 - 52) by lia.
    (* lower bound on the larger one *)
    assert (Lo : 2 ^ (L2 - n0) <= rne V2 n2 * 2 ^ (n2 - n0)).
    { replace (L2 - n0) with (52 + (n2 - n0)) by lia.
      rewrite Z.pow_add_r by lia.
      apply Z.mul_le_mono_nonneg_r; [apply Z.lt_le_incl, pow2_pos; lia|].
      pose proof (rne_bounds V2 n2).
      assert (2 ^ 52 <= V2 / 2 ^ n2); [|lia].
      apply Z.div_le_lower_bound; [apply pow2_pos; lia|].
      rewrite <- Z.pow_add_r by lia. replace (n2 + 52) with L2 by lia. lia. }
    assert (Hi : rne V1 n1 * 2 ^ (n1 - n0) <= 2 ^ Z.max (L1 + 1 - n0) 0); [|
      pose proof (pow2_le (Z.max (L1 + 1 - n0) 0) (L2 - n0)); lia].
    pose proof (rne_bounds V1 n1) as R1.
    assert (Hn1 : 0 <= n1) by lia.
    destruct (Z_le_gt_dec n1 (L1 + 1)) as [Hc|Hc].
    + replace (Z.max (L1 + 1 - n0) 0) with ((L1 + 1 - n1) + (n1 - n0)) by lia.
      rewrite Z.pow_add_r by lia.
      apply Z.mul_le_mono_nonneg_r; [apply Z.lt_le_incl, pow2_pos; lia|].
      assert (V1 / 2 ^ n1 < 2 ^ (L1 + 1 - n1)); [|lia].
      apply Z.div_lt_upper_bound; [apply pow2_pos; lia|].
      rewrite <- Z.pow_add_r by lia. replace (n1 + (L1 + 1 - n1)) with (L1 + 1) by lia. lia.
    + assert (n1 = n0) by lia.
      assert (V1 / 2 ^ n1 = 0).
      { apply Z.div_small. split; [lia|].
        pose proof (pow2_le (L1 + 1) n1). lia. }
      replace (n1 - n0) with 0 by lia. rewrite Z.mul_1_r.
      pose proof (pow2_pos (Z.max (L1 + 1 - n0) 0)). lia.
Qed.

(** ** The shift of [SpecFloat] computes [rne] *)

Lemma digits2_log2 p : Z.pos (digits2_pos p) = Z.log2 (Z.pos p) + 1.
Proof.
  assert (H : forall q, digits2_pos q = Pos.size q).
  { induction q; simpl; congruence. }
  rewrite H. destruct p; simpl; lia.
Qed.

Lemma fexp64 x : fexp prec emax x = Z.max (x - 53) (-1074).
Proof. reflexivity. Qed.

Lemma iter_pos_nat {A : Type} (f : A -> A) p x :
  SpecFloat.iter_pos f p x = Nat.iter (Pos.to_nat p) f x.
Proof.
  revert x. induction p as [p IH|p IH|]; intros x.
  - change (SpecFloat.iter_pos f p~1 x)
      with (SpecFloat.iter_pos f p (SpecFloat.iter_pos f p (f x))).
    rewrite !IH, Pos2Nat.inj_xI.
    replace (S (2 * Pos.to_nat p)) with (Pos.to_nat p + S (Pos.to_nat p))%nat by lia.
    rewrite Nat.iter_add, Nat.iter_succ_r. reflexivity.
  - change (SpecFloat.iter_pos f p~0 x)
      with (SpecFloat.iter_pos f p (SpecFloat.iter_pos f p x)).
    rewrite !IH, Pos2Nat.inj_xO.
    replace (2 * Pos.to_nat p)%nat with (Pos.to_nat p + Pos.to_nat p)%nat by lia.
    rewrite Nat.iter_add. reflexivity.
  - reflexivity.
Qed.

Lemma shr_1_nonneg m r s :
  0 <= m -> shr_1 (Build_shr_record m r s) = Build_shr_record (m / 2) (Z.odd m) (r || s).
Proof.
  intros Hm. rewrite <- Z.div2_div.
  destruct m as [|p|p]; [reflexivity| |lia].
  destruct p; reflexivity.
Qed.

Lemma shr_iter M k :
  0 <= M ->
  let mrs := Nat.iter k shr_1 (Build_shr_record M false false) in
  shr_m mrs = M / 2 ^ Z.of_nat k /\
  loc_of_shr_record mrs = locz (M mod 2 ^ Z.of_nat k) (Z.of_nat k).
Proof.
  intros HM. induction k as [|k IH].
  - simpl. rewrite Z.div_1_r, Z.mod_1_r. split; reflexivity.
  - rewrite Nat.iter_succ, Nat2Z.inj_succ. unfold Z.succ.
    simpl in IH. destruct IH as [IHm IHl].
    destruct (Nat.iter k shr_1 _) as [m r s]. simpl in IHm, IHl.
    assert (HP : 0 < 2 ^ Z.of_nat k) by (apply pow2_pos; lia).
    assert (Hm : 0 <= m) by (subst m; apply Z.div_pos; lia).
    rewrite shr_1_nonneg by assumption. cbn [shr_m loc_of_shr_record].
    rewrite Z.pow_add_r by lia. change (2 ^ 1) with 2.
    split.
    + rewrite <- Z.div_div by lia. congruence.
    + rewrite Z.rem_mul_r by lia. rewrite <- IHm.
      pose proof (Z.mod_pos_bound M (2 ^ Z.of_nat k) HP) as Hr.
      set (rem := M mod 2 ^ Z.of_nat k) in *.
      assert (HP2 : 2 ^ (Z.of_nat k + 1) = 2 ^ Z.of_nat k * 2)
        by (rewrite Z.pow_add_r by lia; reflexivity).
      rewrite Zmod_odd. unfold locz in *.
      destruct (Z.eqb_spec rem 0);
        destruct (Z.compare_spec (2 * rem) (2 ^ Z.of_nat k));
        destruct r, s; simpl in IHl; try discriminate IHl;
        destruct (Z.odd m); simpl;
        repeat match goal with
        | |- context [?a =? ?b] => destruct (Z.eqb_spec a b)
        | |- context [?a ?= ?b] => destruct (Z.compare_spec a b)
        end; try reflexivity; try lia.
Qed.

Lemma round_nearest_even_locz M k :
  0 <= k ->
  round_nearest_even (M / 2 ^ k) (locz (M mod 2 ^ k) k) = rne M k.
Proof.
  intros Hk. pose proof (pow2_pos k Hk). unfold locz, rne.
  destruct (Z.eqb_spec (M mod 2 ^ k) 0) as [E|E].
  - rewrite E. change (2 * 0) with 0. cbn [round_nearest_even]. destruct (Z.compare_spec 0 (2 ^ k)); [lia|reflexivity|lia].
  - simpl. destruct (_ ?= _); reflexivity.
Qed.

Lemma shr_fexp_exact m e :
  let fe := fexp prec emax (Z.pos (digits2_pos m) + e) in
  e <= fe ->
  exists mrs, shr_fexp prec emax (Z.pos m) e loc_Exact = (mrs, fe) /\
    shr_m mrs = Z.pos m / 2 ^ (fe - e) /\
    loc_of_shr_record mrs = locz (Z.pos m mod 2 ^ (fe - e)) (fe - e).
Proof.
  intros fe Hfe. unfold shr_fexp, shr. simpl Zdigits2. fold fe.
  simpl shr_record_of_loc.
  destruct (fe - e) as [|p|p] eqn:E; [| |lia].
  - eexists; split; [f_equal; lia|]. simpl.
    rewrite Z.div_1_r, Z.mod_1_r. split; reflexivity.
  - eexists; split; [f_equal; lia|].
    rewrite iter_pos_nat. rewrite <- (positive_nat_Z p).
    apply shr_iter. lia.
Qed.

Lemma TOP_eq : TOP = 2 ^ 53 * 2 ^ 2045.
Proof. reflexivity. Qed.

Lemma TOP_pos : 0 < TOP.
Proof. reflexivity. Qed.

Global Opaque TOP.

Lemma digits_le p n : 0 <= n -> Z.pos p < 2 ^ n -> Z.pos (digits2_pos p) <= n.
Proof.
  intros Hn H. rewrite digits2_log2.
  apply Z.log2_lt_pow2 in H; lia.
Qed.

Lemma digits_ge p n : 0 <= n -> 2 ^ n <= Z.pos p -> n + 1 <= Z.pos (digits2_pos p).
Proof.
  intros Hn H. rewrite digits2_log2.
  apply Z.log2_le_pow2 in H; lia.
Qed.

Lemma scaled_lt_TOP q fe : 0 <= q < 2 ^ 53 -> -1074 <= fe <= 971 -> q * 2 ^ (fe + 1074) < TOP.
Proof.
  intros Hq Hfe. rewrite TOP_eq.
  pose proof (pow2_le (fe + 1074) 2045 ltac:(lia)).
  pose proof (pow2_pos (fe + 1074) ltac:(lia)).
  nia.
Qed.

Lemma scaled_ge_TOP q fe : 2 ^ 52 <= q -> 971 < fe -> TOP <= q * 2 ^ (fe + 1074).
Proof.
  intros Hq Hfe. rewrite TOP_eq.
  pose proof (pow2_le 2046 (fe + 1074) ltac:(lia)).
  change (2 ^ 2046) with (2 * 2 ^ 2045) in H.
  change (2 ^ 53) with (2 * 2 ^ 52).
  pose proof (pow2_pos 2045 ltac:(lia)).
  nia.
Qed.

Lemma finish_second q fe :
  -1074 <= fe -> 0 <= q <= 2 ^ 53 -> (-1074 < fe -> 2 ^ 52 <= q) ->
  let '(mrs, e2) := shr_fexp prec emax q fe loc_Exact in
  good (finish mrs e2) (q * 2 ^ (fe + 1074)).
Proof.
  intros Hfe Hq Hn.
  destruct q as [|p|p]; [| |lia].
  - unfold shr_fexp, shr. simpl Zdigits2. rewrite fexp64.
    destruct (Z.max (0 + fe - 53) (-1074) - fe) eqn:E; try lia;
      (repeat split; simpl; pose proof TOP_pos; lia).
  - destruct (Z_lt_le_dec (Z.pos p) (2 ^ 53)) as [Hlt|Hge].
    + pose proof (digits_le p 53 ltac:(lia) Hlt) as Hd.
      assert (Hfe2 : fexp prec emax (Z.pos (digits2_pos p) + fe) = fe).
      { rewrite fexp64. destruct (Z.eq_dec fe (-1074)); [lia|].
        pose proof (digits_ge p 52 ltac:(lia) ltac:(lia)). lia. }
      destruct (shr_fexp_exact p fe) as (mrs & E & Hm & _); [lia|].
      rewrite Hfe2 in E, Hm. rewrite E. unfold finish. rewrite Hm.
      rewrite Z.sub_diag, Z.div_1_r.
      change (emax - prec) with 971.
      destruct (Z.leb_spec fe 971).
      * repeat split.
        -- simpl. unfold bounded, canonical_mantissa. rewrite Hfe2.
           rewrite Z.eqb_refl. simpl. apply Z.leb_le. assumption.
        -- pose proof (scaled_lt_TOP (Z.pos p) fe). simpl aval. lia.
      * repeat split.
        pose proof (scaled_ge_TOP (Z.pos p) fe). simpl aval. lia.
    + assert (Hp : Z.pos p = 2 ^ 53) by lia.
      assert (Hd : Z.pos (digits2_pos p) = 54).
      { rewrite digits2_log2, Hp. reflexivity. }
      assert (Hfe2 : fexp prec emax (Z.pos (digits2_pos p) + fe) = fe + 1).
      { rewrite fexp64. lia. }
      destruct (shr_fexp_exact p fe) as (mrs & E & Hm & _); [lia|].
      rewrite Hfe2 in E, Hm. rewrite E. unfold finish. rewrite Hm.
      replace (fe + 1 - fe) with 1 by lia. rewrite Hp.
      change (2 ^ 53 / 2 ^ 1) with (Z.pos (2 ^ 52)).
      change (emax - prec) with 971.
      assert (Hs : 2 ^ 53 * 2 ^ (fe + 1074) = 2 ^ 52 * 2 ^ (fe + 1 + 1074)).
      { replace (fe + 1 + 1074) with (1 + (fe + 1074)) by lia.
        rewrite (Z.pow_add_r 2 1) by lia. change (2 ^ 53) with (2 ^ 52 * 2 ^ 1). ring. }
      destruct (Z.leb_spec (fe + 1) 971).
      * repeat split.
        -- simpl. unfold bounded, canonical_mantissa.
           change (Z.pos (digits2_pos (2 ^ 52))) with 53.
           rewrite fexp64.
           replace (Z.max (53 + (fe + 1) - 53) (-1074)) with (fe + 1) by lia.
           rewrite Z.eqb_refl. simpl. apply Z.leb_le. assumption.
        -- pose proof (scaled_lt_TOP (2 ^ 52) (fe + 1) ltac:(lia) ltac:(lia)).
           simpl aval. change (Z.pos (2 ^ 52)) with (2 ^ 52). lia.
      * repeat split.
        pose proof (scaled_ge_TOP (2 ^ 52) (fe + 1) ltac:(lia) ltac:(lia)).
        simpl aval. lia.
Qed.

Lemma binary_round_aux_finish sx mx ex lx :
  binary_round_aux prec emax sx mx ex lx =
  let '(mrs1, e1) := shr_fexp prec emax mx ex lx in
  let '(mrs2, e2) :=
    shr_fexp prec emax
      (round_nearest_even (shr_m mrs1) (loc_of_shr_record mrs1)) e1 loc_Exact in
  match shr_m mrs2 with
  | Z0 => S754_zero sx
  | Z.pos m => if e2 <=? emax - prec then S754_finite sx m e2 else S754_infinity sx
  | Z.neg _ => S754_nan
  end.
Proof. reflexivity. Qed.

Lemma RN_scaled S m e :
  1074 <= S -> 0 <= e + S ->
  let fe := fexp prec emax (Z.pos (digits2_pos m) + e) in
  e <= fe ->
  RN S (Z.pos m * 2 ^ (e + S)) = rne (Z.pos m) (fe - e) * 2 ^ (fe + 1074).
Proof.
  intros HS He fe Hfe. unfold RN.
  rewrite Z.log2_mul_pow2 by lia.
  assert (Hn : Z.max (e + S + Z.log2 (Z.pos m) + 1 - 53) (S - 1074) = (fe - e) + (e + S)).
  { unfold fe. rewrite fexp64, digits2_log2. lia. }
  rewrite Hn. rewrite rne_scale by lia.
  f_equal. f_equal. lia.
Qed.

Lemma rne_mantissa m e :
  let fe := fexp prec emax (Z.pos (digits2_pos m) + e) in
  e <= fe ->
  0 <= rne (Z.pos m) (fe - e) <= 2 ^ 53 /\
  (-1074 < fe -> 2 ^ 52 <= rne (Z.pos m) (fe - e)).
Proof.
  intros fe Hfe.
  pose proof (rne_bounds (Z.pos m) (fe - e)) as B.
  pose proof (pow2_pos (fe - e) ltac:(lia)) as HP.
  pose proof (log2_bounds (Z.pos m) ltac:(lia)) as [L1 L2].
  assert (Hfe' : fe = Z.max (Z.log2 (Z.pos m) + 1 + e - 53) (-1074)).
  { unfold fe. rewrite fexp64, digits2_log2. reflexivity. }
  pose proof (Z.log2_nonneg (Z.pos m)) as HL.
  set (L := Z.log2 (Z.pos m)) in *.
  assert (Hq0 : 0 <= Z.pos m / 2 ^ (fe - e)) by (apply Z.div_pos; lia).
  assert (Hq1 : Z.pos m / 2 ^ (fe - e) < 2 ^ 53).
  { apply Z.div_lt_upper_bound; [lia|].
    rewrite <- Z.pow_add_r by lia.
    pose proof (pow2_le (L + 1) (fe - e + 53) ltac:(lia)). lia. }
  split; [lia|].
  intros Hn.
  assert (Hk : fe - e = L - 52) by lia.
  assert (2 ^ 52 <= Z.pos m / 2 ^ (fe - e)); [|lia].
  apply Z.div_le_lower_bound; [lia|].
  rewrite <- Z.pow_add_r by lia.
  replace (fe - e + 52) with L by lia. lia.
Qed.

Lemma binary_round_aux_spec S m e :
  1074 <= S -> 0 <= e + S ->
  e <= fexp prec emax (Z.pos (digits2_pos m) + e) ->
  good (binary_round_aux prec emax false (Z.pos m) e loc_Exact)
       (RN S (Z.pos m * 2 ^ (e + S))).
Proof.
  intros HS He Hfe.
  rewrite RN_scaled by assumption.
  destruct (rne_mantissa m e Hfe) as [Hq Hn].
  destruct (shr_fexp_exact m e Hfe) as (mrs & E & Hm & Hl).
  rewrite binary_round_aux_finish, E, Hm, Hl.
  rewrite round_nearest_even_locz by lia.
  set (fe := fexp prec emax (Z.pos (digits2_pos m) + e)) in *.
  assert (Hfe1 : -1074 <= fe) by (unfold fe; rewrite fexp64; lia).
  pose proof (finish_second (rne (Z.pos m) (fe - e)) fe Hfe1 Hq Hn) as F.
  destruct (shr_fexp prec emax _ fe loc_Exact) as [mrs2 e2].
  exact F.
Qed.

(** ** Values of the operations *)

Lemma rne_nonneg M k : 0 <= k -> 0 <= M -> 0 <= rne M k.
Proof.
  intros Hk HM. pose proof (rne_bounds M k).
  pose proof (pow2_pos k Hk).
  assert (0 <= M / 2 ^ k) by (apply Z.div_pos; lia). lia.
Qed.

Lemma RN_nonneg S V : 1074 <= S -> 0 <= V -> 0 <= RN S V.
Proof.
  intros HS HV. unfold RN.
  set (n := Z.max _ _). assert (0 <= n) by lia.
  apply Z.mul_nonneg_nonneg.
  - apply rne_nonneg; lia.
  - apply Z.lt_le_incl, pow2_pos. lia.
Qed.

Lemma RN_mono0 S V1 V2 : 1074 <= S -> 0 <= V1 -> V1 <= V2 -> RN S V1 <= RN S V2.
Proof.
  intros HS H1 H12. destruct (Z.eq_dec V1 0) as [->|N].
  - transitivity 0; [|apply RN_nonneg; lia].
    unfold RN. change (Z.log2 0) with 0.
    replace (Z.max (0 + 1 - 53) (S - 1074)) with (S - 1074) by lia.
    unfold rne. rewrite Z.div_0_l, Z.mod_0_l by (pose proof (pow2_pos (S - 1074)); lia).
    pose proof (pow2_pos (S - 1074)).
    destruct (Z.compare_spec (2 * 0) (2 ^ (S - 1074))); simpl; lia.
  - apply RN_mono; lia.
Qed.

Lemma shift_pos_pow2 m d : Z.pos (Pos.iter xO m d) = Z.pos m * 2 ^ Z.pos d.
Proof.
  rewrite <- Z.shiftl_mul_pow2 by lia. simpl.
  apply (Pos.iter_swap_gen _ _ Z.pos xO (Z.mul 2)). reflexivity.
Qed.

Lemma shl_align_spec m e e' :
  let '(m', e'') := shl_align m e e' in
  e'' = Z.min e e' /\ Z.pos m' = Z.pos m * 2 ^ (e - e'').
Proof.
  unfold shl_align. destruct (e' - e) as [|d|d] eqn:E.
  - split; [lia|]. rewrite Z.sub_diag. lia.
  - split; [lia|]. rewrite Z.sub_diag. lia.
  - split; [lia|]. rewrite shift_pos_pow2. f_equal. f_equal. lia.
Qed.

Lemma digits_shift m m' j :
  0 <= j -> Z.pos m' = Z.pos m * 2 ^ j ->
  Z.pos (digits2_pos m') = Z.pos (digits2_pos m) + j.
Proof.
  intros Hj E. rewrite !digits2_log2, E, Z.log2_mul_pow2 by lia. lia.
Qed.

Lemma binary_round_spec S m e :
  1074 <= S -> 0 <= e + S ->
  good (binary_round prec emax false m e) (RN S (Z.pos m * 2 ^ (e + S))).
Proof.
  intros HS He. unfold binary_round.
  pose proof (shl_align_spec m e (fexp prec emax (Z.pos (digits2_pos m) + e))) as A.
  destruct (shl_align _ _ _) as [mz ez]. destruct A as [Ez Em].
  assert (Hfe : -1074 <= fexp prec emax (Z.pos (digits2_pos m) + e))
    by (rewrite fexp64; lia).
  pose proof (digits_shift m mz (e - ez) ltac:(lia) Em) as Hd.
  replace (Z.pos m * 2 ^ (e + S)) with (Z.pos mz * 2 ^ (ez + S)).
  - apply binary_round_aux_spec; [lia|lia|].
    rewrite Hd. replace (Z.pos (digits2_pos m) + (e - ez) + ez)
      with (Z.pos (digits2_pos m) + e) by lia. lia.
  - rewrite Em, <- Z.mul_assoc, <- Z.pow_add_r by lia. f_equal. f_equal. lia.
Qed.

Lemma valid_finite s m e :
  valid_binary (S754_finite s m e) = true ->
  e = fexp prec emax (Z.pos (digits2_pos m) + e) /\
  -1074 <= e <= 971 /\ Z.pos m < 2 ^ 53 /\ (-1074 < e -> 2 ^ 52 <= Z.pos m).
Proof.
  simpl. unfold bounded, canonical_mantissa. intros H.
  apply andb_prop in H as [H1 H2].
  apply Z.eqb_eq in H1. apply Z.leb_le in H2. change (emax - prec) with 971 in H2.
  split; [lia|]. rewrite fexp64, digits2_log2 in H1.
  pose proof (log2_bounds (Z.pos m) ltac:(lia)) as [L1 L2].
  split; [lia|]. split.
  - pose proof (pow2_le (Z.log2 (Z.pos m) + 1) 53
                  ltac:(pose proof (Z.log2_nonneg (Z.pos m)); lia)). lia.
  - intros Hn. pose proof (pow2_le 52 (Z.log2 (Z.pos m)) ltac:(lia)). lia.
Qed.

Lemma aval_finite_bounds s m e :
  valid_binary (S754_finite s m e) = true ->
  0 < aval (S754_finite s m e) < TOP.
Proof.
  intros V. apply valid_finite in V as (_ & He & Hm & _). simpl. split.
  - pose proof (pow2_pos (e + 1074) ltac:(lia)). lia.
  - apply scaled_lt_TOP; lia.
Qed.

Lemma canonical_lt s1 m1 e1 s2 m2 e2 :
  valid_binary (S754_finite s1 m1 e1) = true ->
  valid_binary (S754_finite s2 m2 e2) = true ->
  e1 < e2 -> aval (S754_finite s1 m1 e1) < aval (S754_finite s2 m2 e2).
Proof.
  intros V1 V2 H.
  apply valid_finite in V1 as (_ & He1 & Hm1 & _).
  apply valid_finite in V2 as (_ & He2 & _ & Hm2).
  specialize (Hm2 ltac:(lia)). simpl.
  pose proof (pow2_pos (e1 + 1074) ltac:(lia)) as P1.
  pose proof (pow2_le (e1 + 1 + 1074) (e2 + 1074) ltac:(lia)) as P2.
  replace (e1 + 1 + 1074) with (1 + (e1 + 1074)) in P2 by lia.
  rewrite Z.pow_add_r in P2 by lia. change (2 ^ 1) with 2 in P2.
  change (2 ^ 53) with (2 * 2 ^ 52) in Hm1.
  nia.
Qed.

Lemma SFleb_aval x y :
  valid_binary x = true -> valid_binary y = true ->
  nonneg_sf x = true -> nonneg_sf y = true ->
  SFleb x y = true <-> aval x <= aval y.
Proof.
  intros Vx Vy Nx Ny. pose proof TOP_pos as HT.
  destruct x as [sx|sx| |sx mx ex], y as [sy|sy| |sy my ey];
    try discriminate Nx; try discriminate Ny; simpl in Nx, Ny;
    try (apply negb_true_iff in Nx; subst sx);
    try (apply negb_true_iff in Ny; subst sy);
    try (pose proof (aval_finite_bounds _ _ _ Vx));
    try (pose proof (aval_finite_bounds _ _ _ Vy));
    unfold SFleb; cbn [SFcompare];
    try (cbn [aval] in *; split; [intros _; lia|reflexivity]);
    try (cbn [aval] in *; split; [discriminate|lia]).
  destruct (Z.compare_spec ex ey) as [E|L|G].
  - subst ey. fold (Pos.compare mx my). rewrite Pos2Z.inj_compare.
    apply valid_finite in Vx as (_ & He & _). cbn [aval].
    pose proof (pow2_pos (ex + 1074) ltac:(lia)).
    destruct (Z.compare_spec (Z.pos mx) (Z.pos my)); split; intros; try easy; nia.
  - pose proof (canonical_lt _ _ _ _ _ _ Vx Vy L). split; [lia|reflexivity].
  - pose proof (canonical_lt _ _ _ _ _ _ Vy Vx ltac:(lia)). split; [discriminate|lia].
Qed.

Lemma RN_0 : RN 1074 0 = 0.
Proof. reflexivity. Qed.

Lemma RN_TOP : RN 1074 TOP = TOP.
Proof. vm_compute. reflexivity. Qed.

Lemma RN_idem s m e :
  valid_binary (S754_finite s m e) = true ->
  RN 1074 (aval (S754_finite s m e)) = aval (S754_finite s m e).
Proof.
  intros V. apply valid_finite in V as (Hc & He & _). cbn [aval].
  rewrite RN_scaled by lia. rewrite <- Hc, Z.sub_diag, rne_0. reflexivity.
Qed.

Lemma good_idem r :
  valid_binary r = true -> nonneg_sf r = true -> good r (RN 1074 (aval r)).
Proof.
  intros V N. pose proof TOP_pos. repeat split; try assumption.
  destruct r as [s|s| |s m e]; try discriminate N.
  - cbn [aval]. rewrite RN_0. lia.
  - cbn [aval]. rewrite RN_TOP. lia.
  - rewrite RN_idem by assumption.
    pose proof (aval_finite_bounds s m e V). cbn [aval] in *. lia.
Qed.

Lemma good_ext r v w : v = w -> good r v -> good r w.
Proof. intros ->. trivial. Qed.

Lemma SFmul_finite mx ex my ey :
  valid_binary (S754_finite false mx ex) = true ->
  valid_binary (S754_finite false my ey) = true ->
  good (SFmul prec emax (S754_finite false mx ex) (S754_finite false my ey))
       (RN 2148 (aval (S754_finite false mx ex) * aval (S754_finite false my ey))).
Proof.
  intros Vx Vy.
  apply valid_finite in Vx as (Cx & Hex & _).
  apply valid_finite in Vy as (Cy & Hey & _).
  cbn [SFmul xorb aval].
  eapply good_ext; [|apply (binary_round_aux_spec 2148); [lia|lia|]].
  - f_equal. rewrite Pos2Z.inj_mul.
    replace (ex + ey + 2148) with ((ex + 1074) + (ey + 1074)) by lia.
    rewrite Z.pow_add_r by lia. ring.
  - rewrite fexp64, digits2_log2 in *. rewrite Pos2Z.inj_mul.
    pose proof (Z.log2_mul_below (Z.pos mx) (Z.pos my) ltac:(lia) ltac:(lia)).
    pose proof (Z.log2_nonneg (Z.pos mx)). pose proof (Z.log2_nonneg (Z.pos my)).
    lia.
Qed.

Lemma finite_of_aval X :
  nonneg_sf X = true -> 0 < aval X < TOP -> exists m e, X = S754_finite false m e.
Proof.
  intros N H. destruct X as [s|s| |s m e]; try discriminate N; cbn [aval] in H; try lia.
  simpl in N. apply negb_true_iff in N. subst s. eauto.
Qed.

Lemma SFmul_aval X f :
  valid_binary X = true -> nonneg_sf X = true -> 0 < aval X < TOP ->
  valid_binary f = true -> nonneg_sf f = true ->
  valid_binary (SFmul prec emax X f) = true /\
  nonneg_sf (SFmul prec emax X f) = true /\
  aval (SFmul prec emax X f) = pmul (aval X) (aval f).
Proof.
  intros VX NX HX Vf Nf. pose proof TOP_pos as HT.
  destruct (finite_of_aval X NX HX) as (mx & ex & ->).
  unfold pmul.
  destruct f as [s|s| |s m e]; try discriminate Nf.
  - split; [reflexivity|split; [reflexivity|reflexivity]].
  - simpl in Nf. apply negb_true_iff in Nf. subst s. cbn [SFmul xorb aval].
    destruct (Z.eqb_spec TOP 0); [lia|]. rewrite Z.eqb_refl.
    split; [reflexivity|split; [reflexivity|reflexivity]].
  - simpl in Nf. apply negb_true_iff in Nf. subst s.
    pose proof (aval_finite_bounds _ _ _ Vf) as B.
    destruct (Z.eqb_spec (aval (S754_finite false m e)) 0); [lia|].
    destruct (Z.eqb_spec (aval (S754_finite false m e)) TOP); [lia|].
    apply SFmul_finite; assumption.
Qed.

Lemma pmul_mono a1 a2 af : 0 <= a1 -> a1 <= a2 -> 0 <= af -> pmul a1 af <= pmul a2 af.
Proof.
  intros H1 H12 Hf. unfold pmul.
  destruct (af =? 0); [lia|]. destruct (af =? TOP); [lia|].
  apply Z.min_le_compat_l. apply RN_mono0; nia.
Qed.

Lemma aval_nonneg r : valid_binary r = true -> 0 <= aval r.
Proof.
  intros V. pose proof TOP_pos. destruct r as [s|s| |s m e]; cbn [aval]; try lia.
Qed.

Lemma SFadd_aval p z :
  valid_binary p = true -> nonneg_sf p = true ->
  valid_binary z = true -> nonneg_sf z = true ->
  good (SFadd prec emax p z) (RN 1074 (aval p + aval z)).
Proof.
  intros Vp Np Vz Nz. pose proof TOP_pos as HT.
  pose proof (aval_nonneg p Vp) as Ap. pose proof (aval_nonneg z Vz) as Az.
  assert (Hinf : forall v, 0 <= v -> TOP = Z.min TOP (RN 1074 (TOP + v))).
  { intros v Hv. pose proof (RN_mono0 1074 TOP (TOP + v) ltac:(lia) ltac:(lia) ltac:(lia)).
    rewrite RN_TOP in *. lia. }
  destruct p as [sp|sp| |sp mp ep]; try discriminate Np;
    destruct z as [sz|sz| |sz mz ez]; try discriminate Nz;
    simpl in Np, Nz;
    try (apply negb_true_iff in Np; subst sp);
    try (apply negb_true_iff in Nz; subst sz).
  - destruct sp, sz; (split; [reflexivity|split; [reflexivity|]]);
      cbn [SFadd aval]; rewrite Z.add_0_l, RN_0; lia.
  - split; [reflexivity|split; [reflexivity|]].
    cbn [SFadd aval]. rewrite Z.add_0_l, RN_TOP. lia.
  - cbn [SFadd]. eapply good_ext; [|apply good_idem; assumption].
    cbn [aval]. f_equal.
  - split; [reflexivity|split; [reflexivity|]].
    cbn [SFadd aval]. rewrite Z.add_0_r, RN_TOP. lia.
  - split; [reflexivity|split; [reflexivity|]].
    cbn [SFadd aval]. apply Hinf. lia.
  - split; [reflexivity|split; [reflexivity|]].
    cbn [SFadd]. cbn [aval] in *. apply Hinf. lia.
  - cbn [SFadd]. eapply good_ext; [|apply good_idem; assumption].
    cbn [aval]. f_equal. lia.
  - split; [reflexivity|split; [reflexivity|]].
    cbn [SFadd]. cbn [aval] in *. rewrite Z.add_comm. apply Hinf. lia.
  - apply valid_finite in Vp as (_ & Hep & _).
    apply valid_finite in Vz as (_ & Hez & _).
    cbn [SFadd cond_Zopp].
    pose proof (shl_align_spec mp ep (Z.min ep ez)) as A1.
    pose proof (shl_align_spec mz ez (Z.min ep ez)) as A2.
    destruct (shl_align mp ep _) as [m1 e1]. destruct (shl_align mz ez _) as [m2 e2].
    destruct A1 as [E1 M1]. destruct A2 as [E2 M2]. cbn [fst].
    change (Z.pos m1 + Z.pos m2) with (Z.pos (m1 + m2)).
    cbn [binary_normalize].
    eapply good_ext; [|apply (binary_round_spec 1074); lia].
    rewrite Pos2Z.inj_add, M1, M2. cbn [aval].
    rewrite Z.mul_add_distr_r, <- !Z.mul_assoc, <- !Z.pow_add_r by lia.
    change (IntDef.Z.min ep ez) with (Z.min ep ez).
    f_equal. f_equal; (f_equal; f_equal; lia).
Qed.

Lemma binary_normalize_pos i :
  0 < i -> good (binary_normalize prec emax i 0 false) (RN 1074 (i * 2 ^ 1074)).
Proof.
  intros Hi. destruct i as [|p|p]; try lia. cbn [binary_normalize].
  apply (binary_round_spec 1074 p 0); lia.
Qed.

(** ** From [spec_float] to [float] *)

Lemma nonneg_Prim2SF f : nonneg f -> nonneg_sf (Prim2SF f) = true.
Proof.
  unfold nonneg. rewrite leb_spec. change (Prim2SF 0) with (S754_zero false).
  destruct (Prim2SF f) as [s|s| |s m e]; unfold SFleb; cbn [SFcompare nonneg_sf];
    try destruct s; simpl; congruence.
Qed.

Lemma leb_aval x y :
  nonneg_sf (Prim2SF x) = true -> nonneg_sf (Prim2SF y) = true ->
  (x <=? y)%float = true <-> aval (Prim2SF x) <= aval (Prim2SF y).
Proof.
  intros Nx Ny. rewrite leb_spec. apply SFleb_aval; auto using Prim2SF_valid.
Qed.

Lemma ival_nonneg i : 0 <= i -> 0 <= ival i.
Proof.
  intros Hi. apply RN_nonneg; [lia|].
  pose proof (pow2_pos 1074 ltac:(lia)). nia.
Qed.

Lemma ival_mono i j : 0 <= i -> i <= j -> ival i <= ival j.
Proof.
  intros Hi Hij. pose proof (pow2_pos 1074 ltac:(lia)).
  apply RN_mono0; [lia|nia|nia].
Qed.

Lemma ival_1 : ival 1 = 2 ^ 1074.
Proof. vm_compute. reflexivity. Qed.

Lemma ival_below_limit : ival (FLOAT_INT_LIMIT - 1) < TOP.
Proof. vm_compute. reflexivity. Qed.

Lemma ival_limit : ival FLOAT_INT_LIMIT = TOP.
Proof. vm_compute. reflexivity. Qed.

Lemma ival_range i : 0 < i < FLOAT_INT_LIMIT -> 0 < ival i < TOP.
Proof.
  intros Hi.
  pose proof (ival_mono 1 i ltac:(lia) ltac:(lia)) as L.
  pose proof (ival_mono i (FLOAT_INT_LIMIT - 1) ltac:(lia) ltac:(lia)) as U.
  pose proof ival_below_limit. rewrite ival_1 in L.
  pose proof (pow2_pos 1074 ltac:(lia)). lia.
Qed.

Lemma ival_overflow i : FLOAT_INT_LIMIT <= i -> TOP <= ival i.
Proof.
  intros Hi. rewrite <- ival_limit. apply ival_mono; [|assumption].
  assert (0 < FLOAT_INT_LIMIT) by reflexivity. lia.
Qed.

Lemma float_of_int_ok i :
  0 < i < FLOAT_INT_LIMIT ->
  exists x, float_of_int i = Ok x /\ nonneg_sf (Prim2SF x) = true /\
            aval (Prim2SF x) = ival i.
Proof.
  intros Hi. pose proof (ival_range i Hi) as R.
  destruct (binary_normalize_pos i ltac:(lia)) as (V & N & A). fold (ival i) in A.
  unfold float_of_int.
  destruct (binary_normalize prec emax i 0 false) as [s|s| |s m e] eqn:E;
    try discriminate N.
  - eexists. split; [reflexivity|]. rewrite Prim2SF_SF2Prim by assumption.
    split; [assumption|]. rewrite A. lia.
  - cbn [aval] in A. lia.
  - eexists. split; [reflexivity|]. rewrite Prim2SF_SF2Prim by assumption.
    split; [assumption|]. rewrite A. lia.
Qed.

Lemma float_of_int_overflow i :
  FLOAT_INT_LIMIT <= i ->
  float_of_int i = Raise (OverflowError "int too large to convert to float").
Proof.
  intros Hi. pose proof (ival_overflow i Hi) as R. pose proof TOP_pos as HT.
  assert (0 < FLOAT_INT_LIMIT) by reflexivity.
  destruct (binary_normalize_pos i ltac:(lia)) as (V & N & A). fold (ival i) in A.
  unfold float_of_int.
  destruct (binary_normalize prec emax i 0 false) as [s|s| |s m e] eqn:E;
    try discriminate N; try reflexivity.
  - cbn [aval] in A. lia.
  - pose proof (aval_finite_bounds s m e V). lia.
Qed.

Lemma int_mul_float_ok i f :
  0 < i < FLOAT_INT_LIMIT -> nonneg f ->
  exists y, int_mul_float i f = Ok y /\ nonneg_sf (Prim2SF y) = true /\
            aval (Prim2SF y) = pmul (ival i) (aval (Prim2SF f)).
Proof.
  intros Hi Hf. destruct (float_of_int_ok i Hi) as (x & Ex & Nx & Ax).
  unfold int_mul_float. rewrite Ex. exists (x * f)%float.
  split; [reflexivity|]. rewrite mul_spec.
  pose proof (ival_range i Hi) as R. rewrite <- Ax in R |- *.
  apply SFmul_aval; auto using Prim2SF_valid, nonneg_Prim2SF.
Qed.

Lemma pmul_nonneg ax af : 0 <= ax -> 0 <= af -> 0 <= pmul ax af.
Proof.
  intros Hx Hf. unfold pmul. pose proof TOP_pos.
  destruct (af =? 0); [lia|]. destruct (af =? TOP); [lia|].
  pose proof (RN_nonneg 2148 (ax * af) ltac:(lia) ltac:(nia)). lia.
Qed.

Lemma limit_above_ten : 10 < FLOAT_INT_LIMIT.
Proof. reflexivity. Qed.

Lemma total_cost_value credits f a :
  1 <= credits < FLOAT_INT_LIMIT + 10 -> nonneg f -> nonneg a ->
  exists y, total_cost credits f a = Ok y /\ nonneg_sf (Prim2SF y) = true /\
    aval (Prim2SF y) = cost_value credits (aval (Prim2SF f)) (aval (Prim2SF a)).
Proof.
  intros Hc Hf Ha. pose proof limit_above_ten as HL.
  unfold total_cost, cost_value. destruct (Z.leb_spec credits 10) as [Hle|Hgt].
  - apply int_mul_float_ok; [lia|assumption].
  - destruct (int_mul_float_ok 10 f ltac:(lia) Hf) as (p & Ep & Np & Ap).
    destruct (int_mul_float_ok (credits - 10) a ltac:(lia) Ha) as (z & Ez & Nz & Az).
    rewrite Ep, Ez. exists (p + z)%float. split; [reflexivity|].
    rewrite add_spec, <- Ap, <- Az.
    destruct (SFadd_aval (Prim2SF p) (Prim2SF z)) as (_ & N & A);
      auto using Prim2SF_valid.
Qed.

Lemma cost_value_mono c1 c2 af aa :
  1 <= c1 -> c1 <= c2 -> 0 <= af -> 0 <= aa ->
  Z.min TOP (RN 1074 (pmul (ival 10) af)) = pmul (ival 10) af ->
  cost_value c1 af aa <= cost_value c2 af aa.
Proof.
  intros H1 H12 Hf Ha Hrep. unfold cost_value.
  pose proof (pmul_nonneg (ival 10) af (ival_nonneg 10 ltac:(lia)) Hf) as P10.
  destruct (Z.leb_spec c1 10) as [L1|G1], (Z.leb_spec c2 10) as [L2|G2]; try lia.
  - apply pmul_mono; [apply ival_nonneg; lia|apply ival_mono; lia|assumption].
  - pose proof (pmul_nonneg (ival (c2 - 10)) aa (ival_nonneg (c2 - 10) ltac:(lia)) Ha) as Pz.
    transitivity (pmul (ival 10) af).
    + apply pmul_mono; [apply ival_nonneg; lia|apply ival_mono; lia|assumption].
    + rewrite <- Hrep at 1. apply Z.min_le_compat_l, RN_mono0; lia.
  - pose proof (pmul_nonneg (ival (c1 - 10)) aa (ival_nonneg (c1 - 10) ltac:(lia)) Ha) as Pz.
    apply Z.min_le_compat_l, RN_mono0; [lia|lia|].
    apply Z.add_le_mono_l, pmul_mono;
      [apply ival_nonneg; lia|apply ival_mono; lia|assumption].
Qed.

Lemma ten_times_representable f :
  nonneg f ->
  Z.min TOP (RN 1074 (pmul (ival 10) (aval (Prim2SF f)))) =
  pmul (ival 10) (aval (Prim2SF f)).
Proof.
  intros Hf. pose proof limit_above_ten.
  destruct (int_mul_float_ok 10 f ltac:(lia) Hf) as (p & _ & Np & Ap).
  rewrite <- Ap. symmetry. apply good_idem; auto using Prim2SF_valid.
Qed.

Lemma ival_exact i : 0 < i < 2 ^ 53 -> ival i = i * 2 ^ 1074.
Proof.
  intros Hi. unfold ival, RN.
  rewrite Z.log2_mul_pow2 by lia.
  pose proof (Z.log2_nonneg i) as L0.
  assert (L : Z.log2 i < 53) by (apply Z.log2_lt_pow2; lia).
  set (n := Z.max (1074 + Z.log2 i + 1 - 53) (1074 - 1074)).
  assert (Hn : 0 <= n <= 1074) by lia.
  replace (i * 2 ^ 1074) with ((i * 2 ^ (1074 - n)) * 2 ^ n) at 1.
  - rewrite rne_exact by lia. replace (n - (1074 - 1074)) with n by lia.
    rewrite <- Z.mul_assoc, <- Z.pow_add_r by lia. do 2 f_equal. lia.
  - rewrite <- Z.mul_assoc, <- Z.pow_add_r by lia. do 2 f_equal. lia.
Qed.

(** ** The loop of [build_rows] *)

Lemma elem_of_range start stop i : i ∈ range start stop <-> start <= i < stop.
Proof.
  unfold range. rewrite list_elem_of_In, in_map_iff. split.
  - intros (k & <- & Hk). apply in_seq in Hk. lia.
  - intros H. exists (Z.to_nat (i - start)). split; [lia|]. apply in_seq. lia.
Qed.

Lemma length_range start stop : length (range start stop) = Z.to_nat (stop - start).
Proof. unfold range. rewrite length_map, length_seq. reflexivity. Qed.

Lemma lookup_range start stop k :
  (k < Z.to_nat (stop - start))%nat -> range start stop !! k = Some (start + Z.of_nat k).
Proof.
  intros Hk. unfold range. rewrite list_lookup_fmap.
  rewrite lookup_seq_lt by assumption. reflexivity.
Qed.

Lemma range_empty start stop : stop <= start -> range start stop = [].
Proof.
  intros H. unfold range. replace (Z.to_nat (stop - start)) with 0%nat by lia.
  reflexivity.
Qed.

Lemma map_seq_shift start a b :
  map (fun k => start + Z.of_nat k) (seq a b) =
  map (fun k => start + Z.of_nat a + Z.of_nat k) (seq 0 b).
Proof.
  revert start a. induction b as [|b IH]; intros start a; [reflexivity|].
  cbn [seq map]. f_equal; [lia|].
  rewrite (IH start (S a)), (IH (start + Z.of_nat a) 1%nat).
  apply map_ext. intros k. lia.
Qed.

Lemma range_split start mid stop :
  start <= mid <= stop -> range start stop = (range start mid ++ range mid stop)%list.
Proof.
  intros H. unfold range.
  replace (Z.to_nat (stop - start))
    with (Z.to_nat (mid - start) + Z.to_nat (stop - mid))%nat by lia.
  rewrite seq_app, map_app. f_equal.
  rewrite map_seq_shift. apply map_ext. intros k. lia.
Qed.

Lemma range_cons start stop :
  start < stop -> range start stop = start :: range (start + 1) stop.
Proof.
  intros H. rewrite (range_split start (start + 1) stop) by lia.
  unfold range at 1. replace (Z.to_nat (start + 1 - start)) with 1%nat by lia.
  simpl. do 2 f_equal. lia.
Qed.

Lemma build_rows_loop_app rates t1 t2 rows :
  build_rows_loop rates (t1 ++ t2)%list rows =
  rbind (build_rows_loop rates t1 rows) (build_rows_loop rates t2).
Proof.
  revert rows. induction t1 as [|c t1 IH]; intros rows; [reflexivity|].
  cbn [app build_rows_loop]. unfold mbind, result_bind.
  destruct (build_row rates c) as [r|e]; [apply IH|reflexivity].
Qed.

Lemma build_rows_loop_ok rates todo rows :
  Forall (fun c => exists r, build_row rates c = Ok r) todo ->
  exists new, build_rows_loop rates todo rows = Ok (rows ++ new)%list /\
    Forall2 (fun c r => build_row rates c = Ok r) todo new.
Proof.
  intros H. revert rows. induction H as [|c todo (r & Hr) _ IH]; intros rows.
  - exists []. rewrite app_nil_r. split; [reflexivity|constructor].
  - destruct (IH (rows ++ [r])%list) as (new & E & F).
    exists (r :: new). cbn [build_rows_loop]. rewrite Hr.
    unfold mbind, result_bind, rbind. rewrite E, <- app_assoc.
    split; [reflexivity|]. constructor; assumption.
Qed.

Lemma build_rows_loop_inv rates todo rows out :
  build_rows_loop rates todo rows = Ok out ->
  Forall (fun c => exists r, build_row rates c = Ok r) todo.
Proof.
  revert rows. induction todo as [|c todo IH]; intros rows H; [constructor|].
  cbn [build_rows_loop] in H. unfold mbind, result_bind, rbind in H.
  destruct (build_row rates c) as [r|e] eqn:E; [|discriminate].
  constructor; eauto.
Qed.

(** ** Cost calculator *)

(** Closed comparisons of large integers, by evaluation. *)
Ltac by_eval :=
  first [ reflexivity
        | let H := fresh in intro H; vm_compute in H; discriminate H ].

Lemma float_of_ten : float_of_int 10 = Ok 10%float.
Proof. vm_compute. reflexivity. Qed.

Lemma float_of_int_exact i :
  0 < i < 2 ^ 53 ->
  exists x, float_of_int i = Ok x /\ nonneg_sf (Prim2SF x) = true /\
            aval (Prim2SF x) = i * 2 ^ 1074.
Proof.
  intros Hi. assert (2 ^ 53 < FLOAT_INT_LIMIT) by reflexivity.
  destruct (float_of_int_ok i ltac:(lia)) as (x & E & N & A).
  rewrite ival_exact in A by assumption. eauto.
Qed.

Lemma total_cost_limit_raises f a :
  total_cost (FLOAT_INT_LIMIT + 10) f a =
  Raise (OverflowError "int too large to convert to float").
Proof.
  unfold total_cost.
  replace (FLOAT_INT_LIMIT + 10 <=? 10) with false by reflexivity.
  unfold int_mul_float. rewrite float_of_ten.
  replace (FLOAT_INT_LIMIT + 10 - 10) with FLOAT_INT_LIMIT by lia.
  rewrite float_of_int_overflow by lia. reflexivity.
Qed.

(** C1, as stated, fails where [credits - 10] has no [float]: at
    [credits = 2^1024 - 2^970 + 10] and both rates [1.0] the hypotheses hold
    and [total_cost] raises [OverflowError], so it equals no number. *)
Lemma total_cost_tiers_overflow :
  1 <= FLOAT_INT_LIMIT + 10 /\ 10 < FLOAT_INT_LIMIT + 10 /\
  nonneg 1 /\ nonneg 1 /\
  total_cost (FLOAT_INT_LIMIT + 10) 1 1 =
    Raise (OverflowError "int too large to convert to float") /\
  ~ (exists v : float, total_cost (FLOAT_INT_LIMIT + 10) 1 1 = Ok v).
Proof.
  split; [by_eval|]. split; [by_eval|].
  split; [reflexivity|]. split; [reflexivity|].
  rewrite total_cost_limit_raises. split; [reflexivity|].
  intros (v & H). discriminate H.
Qed.

(** C1, amended: for every integer [credits >= 1] below
    [2^1024 - 2^970 + 10] and rates [>= 0]: if [credits <= 10] the result is
    [float(credits) * firstTierRate], where [float(credits)] is exactly
    [credits]; if [credits > 10] it is
    [10 * firstTierRate + float(credits - 10) * afterTierRate]; at
    [credits = 10] only the first-tier rate is used. *)
Theorem total_cost_tiers (credits : Z) (firstTierRate afterTierRate : float) :
  1 <= credits -> credits < FLOAT_INT_LIMIT + 10 ->
  nonneg firstTierRate -> nonneg afterTierRate ->
  (credits <= 10 ->
     exists c, float_of_int credits = Ok c /\
       aval (Prim2SF c) = credits * 2 ^ 1074 /\
       total_cost credits firstTierRate afterTierRate = Ok (c * firstTierRate)%float) /\
  (10 < credits ->
     exists d, float_of_int (credits - 10) = Ok d /\
       total_cost credits firstTierRate afterTierRate
       = Ok (10 * firstTierRate + d * afterTierRate)%float) /\
  total_cost 10 firstTierRate afterTierRate = Ok (10 * firstTierRate)%float.
Proof.
  intros H1 Hlim _ _. unfold total_cost, int_mul_float.
  split; [|split].
  - intros Hle. destruct (float_of_int_exact credits) as (c & E & _ & A).
    { assert (10 < 2 ^ 53) by reflexivity. lia. }
    exists c. rewrite E. destruct (Z.leb_spec credits 10); [|lia]. auto.
  - intros Hgt. destruct (float_of_int_ok (credits - 10)) as (d & E & _); [lia|].
    exists d. destruct (Z.leb_spec credits 10); [lia|].
    rewrite float_of_ten, E. auto.
  - rewrite float_of_ten. reflexivity.
Qed.

Lemma total_cost_tiers_witness :
  exists d, float_of_int 2 = Ok d /\
    total_cost 12 123.94 57.78 = Ok (10 * 123.94 + d * 57.78)%float.
Proof.
  apply (total_cost_tiers 12 123.94 57.78); [lia|by_eval|reflexivity|reflexivity|lia].
Defined.

Lemma total_cost_ok credits f a :
  1 <= credits < FLOAT_INT_LIMIT + 10 -> exists y, total_cost credits f a = Ok y.
Proof.
  intros Hc. pose proof limit_above_ten. unfold total_cost, int_mul_float.
  destruct (Z.leb_spec credits 10).
  - destruct (float_of_int_ok credits) as (c & E & _); [lia|]. rewrite E. eauto.
  - destruct (float_of_int_ok (credits - 10)) as (d & E & _); [lia|].
    rewrite float_of_ten, E. eauto.
Qed.

(** C5, as stated, fails for a [credits2] that [total_cost] cannot convert:
    with [credits1 = 1], [credits2 = 2^1024 - 2^970 + 10] and both rates
    [1.0] the hypotheses hold, and there are no two results to compare. *)
Lemma total_cost_monotone_overflow :
  1 <= 1 /\ 1 <= FLOAT_INT_LIMIT + 10 /\ nonneg 1 /\ nonneg 1 /\
  ~ (exists y1 y2 : float,
       total_cost 1 1 1 = Ok y1 /\
       total_cost (FLOAT_INT_LIMIT + 10) 1 1 = Ok y2 /\
       (y1 <=? y2)%float = true).
Proof.
  split; [lia|]. split; [by_eval|]. split; [reflexivity|]. split; [reflexivity|].
  intros (y1 & y2 & _ & H & _). rewrite total_cost_limit_raises in H. discriminate H.
Qed.

(** C5, amended: for rates [>= 0] and integers
    [1 <= credits1 <= credits2 < 2^1024 - 2^970 + 10], both calls return and
    [total_cost(credits1, ..) <= total_cost(credits2, ..)]. *)
Theorem total_cost_monotone (credits1 credits2 : Z) (firstTierRate afterTierRate : float) :
  nonneg firstTierRate -> nonneg afterTierRate ->
  1 <= credits1 -> credits1 <= credits2 -> credits2 < FLOAT_INT_LIMIT + 10 ->
  exists y1 y2,
    total_cost credits1 firstTierRate afterTierRate = Ok y1 /\
    total_cost credits2 firstTierRate afterTierRate = Ok y2 /\
    (y1 <=? y2)%float = true.
Proof.
  intros Hf Ha H1 H12 Hlim.
  destruct (total_cost_value credits1 firstTierRate afterTierRate) as (y1 & E1 & N1 & A1);
    [lia|assumption|assumption|].
  destruct (total_cost_value credits2 firstTierRate afterTierRate) as (y2 & E2 & N2 & A2);
    [lia|assumption|assumption|].
  exists y1, y2. split; [assumption|]. split; [assumption|].
  apply leb_aval; [assumption|assumption|]. rewrite A1, A2.
  apply cost_value_mono; try assumption.
  - apply aval_nonneg, Prim2SF_valid.
  - apply aval_nonneg, Prim2SF_valid.
  - apply ten_times_representable. assumption.
Qed.

Lemma total_cost_monotone_witness :
  exists y1 y2,
    total_cost 7 123.94 57.78 = Ok y1 /\
    total_cost 12 123.94 57.78 = Ok y2 /\
    (y1 <=? y2)%float = true.
Proof.
  apply (total_cost_monotone 7 12 123.94 57.78);
    [reflexivity|reflexivity|lia|lia|by_eval].
Defined.

(** ** Rate table *)

Lemma resident_rates :
  exists rates, TUITION_RATES !! "resident" = Some rates /\
    rate_set rates 123.94 57.78 133.54 67.38.
Proof. eexists. split; [reflexivity|]. split; reflexivity. Qed.

Lemma non_resident_rates :
  exists rates, TUITION_RATES !! "non-resident" = Some rates /\
    rate_set rates 274.84 208.68 284.44 218.28.
Proof. eexists. split; [reflexivity|]. split; reflexivity. Qed.

(** C4: the rate table has exactly the keys [resident] and [non-resident];
    each maps to a dict with exactly the four rate keys, holding the
    literals of the source, each the binary64 value nearest to its decimal;
    any other key raises [KeyError]. *)
Theorem TUITION_RATES_table :
  dom TUITION_RATES = {[ "resident"; "non-resident" ]} /\
  (exists rates, getitem TUITION_RATES "resident" = Ok rates /\
     dom rates = {[ "lower_first_10"; "lower_after_10";
                    "upper_first_10"; "upper_after_10" ]} /\
     rate_set rates 123.94 57.78 133.54 67.38) /\
  (exists rates, getitem TUITION_RATES "non-resident" = Ok rates /\
     dom rates = {[ "lower_first_10"; "lower_after_10";
                    "upper_first_10"; "upper_after_10" ]} /\
     rate_set rates 274.84 208.68 284.44 218.28) /\
  (forall key : string, key <> "resident" -> key <> "non-resident" ->
     getitem TUITION_RATES key = Raise (KeyError key)) /\
  [ 123.94; 57.78; 133.54; 67.38; 274.84; 208.68; 284.44; 218.28 ]%float =
  [ decimal 12394 2; decimal 5778 2; decimal 13354 2; decimal 6738 2;
    decimal 27484 2; decimal 20868 2; decimal 28444 2; decimal 21828 2 ].
Proof.
  assert (D : dom TUITION_RATES = {[ "resident"; "non-resident" ]}).
  { unfold TUITION_RATES. rewrite dom_insert_L, dom_singleton_L. reflexivity. }
  split; [exact D|]. split; [|split; [|split; [|vm_compute; reflexivity]]].
  - eexists. split; [reflexivity|]. split; [|split; reflexivity].
    rewrite !dom_insert_L, dom_singleton_L. set_solver.
  - eexists. split; [reflexivity|]. split; [|split; reflexivity].
    rewrite !dom_insert_L, dom_singleton_L. set_solver.
  - intros key H1 H2. unfold getitem.
    assert (N : TUITION_RATES !! key = None).
    { apply not_elem_of_dom. rewrite D, elem_of_union, !elem_of_singleton.
      intros [K|K]; contradiction. }
    rewrite N. reflexivity.
Qed.

(** ** Row builder *)

Lemma build_row_ok rates lf la uf ua credits :
  rate_set rates lf la uf ua ->
  1 <= credits < FLOAT_INT_LIMIT + 10 ->
  exists lower_total upper_total,
    total_cost credits lf la = Ok lower_total /\
    total_cost credits uf ua = Ok upper_total /\
    build_row rates credits = Ok (credits, lower_total, upper_total).
Proof.
  intros [R1 R2 R3 R4] Hc.
  destruct (total_cost_ok credits lf la Hc) as (lo & Elo).
  destruct (total_cost_ok credits uf ua Hc) as (up & Eup).
  exists lo, up. split; [assumption|]. split; [assumption|].
  unfold build_row, getitem. rewrite R1, R2, R3, R4. cbn.
  rewrite Elo. cbn. rewrite Eup. reflexivity.
Qed.

Lemma build_rows_returns max_credits rates lf la uf ua :
  rate_set rates lf la uf ua ->
  max_credits < FLOAT_INT_LIMIT + 10 ->
  exists rows,
    build_rows max_credits rates = Ok rows /\
    length rows = Z.to_nat max_credits /\
    Forall2 (fun c r => build_row rates c = Ok r) (range 1 (max_credits + 1)) rows.
Proof.
  intros R Hlim. unfold build_rows.
  destruct (build_rows_loop_ok rates (range 1 (max_credits + 1)) [])
    as (rows & E & F).
  { apply Forall_forall. intros c Hc. apply elem_of_range in Hc.
    destruct (build_row_ok rates lf la uf ua c R ltac:(lia)) as (lo & up & _ & _ & Er).
    eauto. }
  exists rows. split; [exact E|]. split; [|exact F].
  pose proof (Forall2_length _ _ _ F) as L. rewrite length_range in L. lia.
Qed.

(** *** With bounded memory *)

Lemma list_max_below_limit : Machine.LIST_MAX + 1 < FLOAT_INT_LIMIT + 10.
Proof. reflexivity. Qed.

Lemma room_le_list_max capacity : Machine.room capacity <= Machine.LIST_MAX.
Proof. unfold Machine.room. lia. Qed.

Lemma machine_loop_fits room rates todo rows :
  Z.of_nat (length rows) + Z.of_nat (length todo) <= room ->
  Machine.build_rows_loop room rates todo rows = build_rows_loop rates todo rows.
Proof.
  revert rows. induction todo as [|c todo IH]; intros rows H; [reflexivity|].
  cbn [Machine.build_rows_loop build_rows_loop]. unfold mbind, result_bind.
  destruct (build_row rates c) as [r|e]; [|reflexivity]. cbn [rbind].
  cbn [length] in H.
  destruct (Z.ltb_spec (Z.of_nat (length rows)) room); [|lia].
  apply IH. rewrite length_app. cbn [length]. lia.
Qed.

Lemma machine_loop_app room rates t1 t2 rows :
  Machine.build_rows_loop room rates (t1 ++ t2)%list rows =
  rbind (Machine.build_rows_loop room rates t1 rows)
        (Machine.build_rows_loop room rates t2).
Proof.
  revert rows. induction t1 as [|c t1 IH]; intros rows; [reflexivity|].
  cbn [app Machine.build_rows_loop]. unfold mbind, result_bind.
  destruct (build_row rates c) as [r|e]; [|reflexivity]. cbn [rbind].
  destruct (Z.of_nat (length rows) <? room); [apply IH|reflexivity].
Qed.

Lemma machine_loop_full room rates todo rows :
  Forall (fun c => exists r, build_row rates c = Ok r) todo ->
  (0 < length todo)%nat ->
  room < Z.of_nat (length rows) + Z.of_nat (length todo) ->
  Machine.build_rows_loop room rates todo rows = Raise MemoryError.
Proof.
  intros F. revert rows. induction F as [|c todo (r & Hr) _ IH]; intros rows Hpos H.
  - cbn in Hpos. lia.
  - cbn [Machine.build_rows_loop]. rewrite Hr. unfold mbind, result_bind. cbn [rbind].
    cbn [length] in H.
    destruct (Z.ltb_spec (Z.of_nat (length rows)) room) as [Hlt|Hge]; [|reflexivity].
    apply IH.
    + destruct todo; cbn [length] in *; lia.
    + rewrite length_app. cbn [length]. lia.
Qed.

Lemma machine_build_rows_fits capacity max_credits rates :
  max_credits <= Machine.room capacity ->
  Machine.build_rows capacity max_credits rates = build_rows max_credits rates.
Proof.
  intros H. unfold Machine.build_rows, build_rows.
  destruct (Z_le_gt_dec max_credits 0) as [Hn|Hn].
  - rewrite range_empty by lia. reflexivity.
  - apply machine_loop_fits. rewrite length_range. cbn [length]. lia.
Qed.

Lemma machine_build_rows_memory capacity max_credits rates lf la uf ua :
  rate_set rates lf la uf ua ->
  1 <= max_credits -> Machine.room capacity < max_credits ->
  Machine.build_rows capacity max_credits rates = Raise MemoryError.
Proof.
  intros R H1 Hroom. pose proof (room_le_list_max capacity) as Hmax.
  pose proof list_max_below_limit as Hlim.
  assert (Hpos : 0 <= Machine.LIST_MAX) by by_eval.
  unfold Machine.build_rows.
  remember (Z.max 0 (Machine.room capacity) + 1) as k eqn:Ek.
  assert (Hk : 1 <= k <= max_credits) by lia.
  rewrite (range_split 1 (k + 1) (max_credits + 1)) by lia.
  rewrite machine_loop_app.
  rewrite (machine_loop_full (Machine.room capacity) rates (range 1 (k + 1)) []).
  - reflexivity.
  - apply Forall_forall. intros c Hc. apply elem_of_range in Hc.
    destruct (build_row_ok rates lf la uf ua c R ltac:(lia)) as (lo & up & _ & _ & Er).
    eauto.
  - rewrite length_range. lia.
  - rewrite length_range. cbn [length]. lia.
Qed.

Lemma machine_build_rows_returns capacity max_credits rates lf la uf ua :
  rate_set rates lf la uf ua ->
  max_credits <= Machine.room capacity ->
  exists rows,
    Machine.build_rows capacity max_credits rates = Ok rows /\
    length rows = Z.to_nat max_credits /\
    Forall2 (fun c r => build_row rates c = Ok r) (range 1 (max_credits + 1)) rows.
Proof.
  intros R H. rewrite machine_build_rows_fits by assumption.
  apply (build_rows_returns max_credits rates lf la uf ua R).
  pose proof (room_le_list_max capacity). pose proof list_max_below_limit. lia.
Qed.

(** C2, as stated, fails for a [maxCredits] whose table the memory cannot
    hold.  A list never holds [2^60] rows, so on every machine
    [build_rows(2^60, resident rates)] raises [MemoryError] and returns no
    rows. *)
Lemma build_rows_table_memory :
  exists rates,
    TUITION_RATES !! "resident" = Some rates /\
    1 <= 2 ^ 60 /\
    (forall capacity, Machine.build_rows capacity (2 ^ 60) rates = Raise MemoryError) /\
    ~ (exists rows, Machine.build_rows (2 ^ 64) (2 ^ 60) rates = Ok rows /\
         length rows = Z.to_nat (2 ^ 60)).
Proof.
  destruct resident_rates as (rates & E & R). exists rates.
  assert (M : forall capacity,
            Machine.build_rows capacity (2 ^ 60) rates = Raise MemoryError).
  { intros capacity.
    apply (machine_build_rows_memory capacity (2 ^ 60) rates _ _ _ _ R); [lia|].
    pose proof (room_le_list_max capacity). unfold Machine.LIST_MAX in *. lia. }
  split; [assumption|]. split; [lia|]. split; [exact M|].
  intros (rows & H & _). rewrite M in H. discriminate H.
Qed.

(** C2, amended: for every integer [maxCredits >= 1] whose table fits in the
    memory of the process ([maxCredits] at most the number of rows it can
    hold, which is below [2^60]) and every dict [rates] with the four
    rates, [build_rows] returns exactly [maxCredits] rows, and for every [i]
    from 1 to [maxCredits] the [i]-th row is
    [(i, total_cost(i, lower rates), total_cost(i, upper rates))]. *)
Theorem build_rows_table (capacity maxCredits : Z) (rates : gmap string float)
    (lf la uf ua : float) :
  1 <= maxCredits -> maxCredits <= Machine.room capacity ->
  rate_set rates lf la uf ua ->
  exists rows,
    Machine.build_rows capacity maxCredits rates = Ok rows /\
    length rows = Z.to_nat maxCredits /\
    forall i, 1 <= i <= maxCredits ->
      exists lower_total upper_total,
        total_cost i lf la = Ok lower_total /\
        total_cost i uf ua = Ok upper_total /\
        rows !! Z.to_nat (i - 1) = Some (i, lower_total, upper_total).
Proof.
  intros H1 Hroom R.
  pose proof (room_le_list_max capacity) as Hmax. pose proof list_max_below_limit as Hlim.
  destruct (machine_build_rows_returns capacity maxCredits rates lf la uf ua R Hroom)
    as (rows & E & L & F).
  exists rows. split; [exact E|]. split; [exact L|].
  intros i Hi.
  destruct (build_row_ok rates lf la uf ua i R ltac:(lia)) as (lo & up & Elo & Eup & Er).
  exists lo, up. split; [assumption|]. split; [assumption|].
  assert (Hk : range 1 (maxCredits + 1) !! Z.to_nat (i - 1) = Some i).
  { rewrite lookup_range by lia. f_equal. lia. }
  destruct (Forall2_lookup_l _ _ _ _ _ F Hk) as (r & Hr & Hb).
  assert (r = (i, lo, up)) by congruence. subst r. exact Hr.
Qed.

Lemma build_rows_table_witness :
  exists rows,
    Machine.build_rows 1000
      3 {[ "lower_first_10" := 123.94%float; "lower_after_10" := 57.78%float;
           "upper_first_10" := 133.54%float; "upper_after_10" := 67.38%float ]}
      = Ok rows /\
    length rows = Z.to_nat 3 /\
    forall i, 1 <= i <= 3 ->
      exists lower_total upper_total,
        total_cost i 123.94 57.78 = Ok lower_total /\
        total_cost i 133.54 67.38 = Ok upper_total /\
        rows !! Z.to_nat (i - 1) = Some (i, lower_total, upper_total).
Proof.
  apply (build_rows_table 1000 3); [lia|by_eval|split; reflexivity].
Defined.

(** C10, as stated, fails: [build_rows] is not total over the integers.  On
    every machine [build_rows(2^61, non-resident rates)] raises
    [MemoryError]. *)
Lemma build_rows_not_total :
  exists rates,
    TUITION_RATES !! "non-resident" = Some rates /\
    (forall capacity, Machine.build_rows capacity (2 ^ 61) rates = Raise MemoryError) /\
    ~ (exists rows, Machine.build_rows (2 ^ 64) (2 ^ 61) rates = Ok rows).
Proof.
  destruct non_resident_rates as (rates & E & R). exists rates.
  assert (M : forall capacity,
            Machine.build_rows capacity (2 ^ 61) rates = Raise MemoryError).
  { intros capacity.
    apply (machine_build_rows_memory capacity (2 ^ 61) rates _ _ _ _ R); [lia|].
    pose proof (room_le_list_max capacity). unfold Machine.LIST_MAX in *. lia. }
  split; [assumption|]. split; [exact M|].
  intros (rows & H). rewrite M in H. discriminate H.
Qed.

(** C10, amended: for every [maxCredits <= 0], every dict [rates] (with the
    four rates or not) and whatever the memory, [build_rows] returns the
    empty list rather than failing.  (It is not total over all integers: a
    [maxCredits] beyond what the memory holds raises [MemoryError].) *)
Theorem build_rows_nonpositive (capacity maxCredits : Z) (rates : gmap string float) :
  maxCredits <= 0 ->
  Machine.build_rows capacity maxCredits rates = Ok [] /\
  build_rows maxCredits rates = Ok [].
Proof.
  intros H. unfold Machine.build_rows, build_rows.
  rewrite range_empty by lia. split; reflexivity.
Qed.

Lemma build_rows_nonpositive_witness :
  Machine.build_rows 0 (-4) ∅ = Ok [] /\ build_rows (-4) ∅ = Ok [].
Proof. apply (build_rows_nonpositive 0 (-4) ∅). lia. Defined.

(** C3: the scenarios of the specification, evaluated in binary64:
    [total_cost(5, 123.94, 57.78) == 619.70],
    [total_cost(10, 123.94, 57.78) == 1239.40],
    [total_cost(12, 123.94, 57.78) == 1354.96], and
    [build_rows(3, resident rates)] is
    [[(1, 123.94, 133.54), (2, 247.88, 267.08), (3, 371.82, 400.62)]]. *)
Theorem scenarios :
  total_cost 5 123.94 57.78 = Ok 619.70%float /\
  total_cost 10 123.94 57.78 = Ok 1239.40%float /\
  total_cost 12 123.94 57.78 = Ok 1354.96%float /\
  (rates ← getitem TUITION_RATES "resident"; build_rows 3 rates) =
    Ok [ (1, 123.94%float, 133.54%float);
         (2, 247.88%float, 267.08%float);
         (3, 371.82%float, 400.62%float) ].
Proof. repeat split; vm_compute; reflexivity. Qed.

(** ** The row builder on a store *)

Lemma heap_loop_refines rates todo l (st : Heap.store) rows :
  st !! l = Some rows ->
  exists st',
    (forall l', l' <> l -> st' !! l' = st !! l') /\
    match build_rows_loop rates todo rows with
    | Ok out => Heap.build_rows_loop rates todo l st = (st', Ok tt) /\
                st' !! l = Some out
    | Raise e => Heap.build_rows_loop rates todo l st = (st', Raise e)
    end.
Proof.
  revert st rows. induction todo as [|c todo IH]; intros st rows Hl.
  - exists st. split; [reflexivity|]. split; [reflexivity|assumption].
  - cbn [build_rows_loop Heap.build_rows_loop].
    unfold mbind, result_bind, rbind.
    destruct (build_row rates c) as [r|e].
    + destruct (IH (Heap.append l r st) (rows ++ [r])%list) as (st' & Fr & H).
      { unfold Heap.append. rewrite lookup_alter_eq, Hl. reflexivity. }
      exists st'. split; [|exact H].
      intros l' Hne. rewrite (Fr l' Hne). unfold Heap.append.
      apply lookup_alter_ne. congruence.
    + exists st. split; reflexivity.
Qed.


Lemma heap_build_rows_frame max_credits rates (st : Heap.store) l rows :
  st !! l = Some rows -> (Heap.build_rows max_credits rates st).1 !! l = Some rows.
Proof.
  intros Hl. unfold Heap.build_rows, Heap.new_list.
  set (l0 := fresh (dom st)).
  assert (Hne : l <> l0).
  { intros ->. apply (is_fresh (dom st)). apply elem_of_dom. eauto. }
  destruct (heap_loop_refines rates (range 1 (max_credits + 1)) l0 (<[l0 := []]> st) [])
    as (st' & Fr & H).
  { apply lookup_insert_eq. }
  specialize (Fr l Hne). rewrite lookup_insert_ne in Fr by congruence.
  destruct (build_rows_loop rates (range 1 (max_credits + 1)) []) as [out|e].
  - destruct H as [E _]. rewrite E. cbn. congruence.
  - rewrite H. cbn. congruence.
Qed.


(** ** Entry point *)

Lemma getitem_choices name :
  name ∈ choices ->
  exists rates lf la uf ua,
    getitem TUITION_RATES name = Ok rates /\ rate_set rates lf la uf ua.
Proof.
  unfold choices. rewrite !elem_of_cons, elem_of_nil.
  intros [->|[->|[]]].
  - destruct resident_rates as (rates & E & R).
    exists rates, 123.94%float, 57.78%float, 133.54%float, 67.38%float.
    unfold getitem. rewrite E. auto.
  - destruct non_resident_rates as (rates & E & R).
    exists rates, 274.84%float, 208.68%float, 284.44%float, 218.28%float.
    unfold getitem. rewrite E. auto.
Qed.




Lemma print_err_lines_app lines w :
  stdout (print_err_lines lines w) = stdout w /\
  stderr (print_err_lines lines w) = (stderr w ++ lines)%list /\
  files (print_err_lines lines w) = files w.
Proof.
  unfold print_err_lines. revert w.
  induction lines as [|line lines IH]; intros w; cbn [fold_left].
  - rewrite app_nil_r. auto.
  - destruct (IH (print_err line w)) as (-> & -> & ->). cbn [print_err stdout stderr files].
    rewrite <- app_assoc. auto.
Qed.








(** C8, as stated, fails when [--output] is given an empty value: the empty
    string is false in [if args.output:], and the default name is used
    instead of the value given. *)
Lemma output_filename_empty_value :
  let args := {| residency := "resident"; max_credits := 5; output := Some "" |} in
  residency args ∈ choices /\ 1 <= max_credits args /\
  output_filename args = "tuition_resident_1_to_5.xlsx" /\
  output_filename args <> "".
Proof.
  intros args. split; [apply list_elem_of_here|]. split; [simpl; lia|].
  split; [reflexivity|]. discriminate.
Qed.

(** C8, amended: for every valid invocation, when [--output] is absent or
    its value is the empty string, the output filename is
    [tuition_<residency>_1_to_<max_credits>.xlsx]; when [--output] is given
    a non-empty value, that value is the output filename.  In particular,
    residency [non-resident] with [max_credits] 15 gives
    [tuition_non-resident_1_to_15.xlsx]. *)
Theorem output_filename_rule (args : Namespace) :
  residency args ∈ choices -> 1 <= max_credits args ->
  (output args = None \/ output args = Some "" ->
     output_filename args =
       "tuition_" +:+ residency args +:+ "_1_to_" +:+ pretty (max_credits args)
       +:+ ".xlsx") /\
  (forall name, output args = Some name -> name <> "" ->
     output_filename args = name) /\
  output_filename {| residency := "non-resident"; max_credits := 15; output := None |}
    = "tuition_non-resident_1_to_15.xlsx".
Proof.
  intros _ _. unfold output_filename. split; [|split].
  - intros [-> | ->]; reflexivity.
  - intros name -> Hne. cbn [truthy].
    apply String.eqb_neq in Hne. rewrite Hne. reflexivity.
  - reflexivity.
Qed.

Lemma output_filename_rule_witness :
  output_filename
    {| residency := "resident"; max_credits := 12; output := Some "table.xlsx" |}
  = "table.xlsx".
Proof.
  refine (proj1 (proj2 (output_filename_rule
           {| residency := "resident"; max_credits := 12; output := Some "table.xlsx" |}
           _ _)) "table.xlsx" eq_refl _).
  - apply list_elem_of_here.
  - simpl. lia.
  - discriminate.
Defined.

(** * Further properties *)

(** ** Where [total_cost] returns *)

Lemma binary_round_aux_opp m e l :
  binary_round_aux prec emax true m e l =
  SFopp (binary_round_aux prec emax false m e l).
Proof.
  rewrite !binary_round_aux_finish.
  destruct (shr_fexp prec emax m e l) as [mrs1 e1].
  destruct (shr_fexp prec emax _ e1 loc_Exact) as [mrs2 e2].
  destruct (shr_m mrs2); [reflexivity| |reflexivity].
  destruct (e2 <=? emax - prec); reflexivity.
Qed.

Lemma binary_round_opp m e :
  binary_round prec emax true m e = SFopp (binary_round prec emax false m e).
Proof.
  unfold binary_round. destruct (shl_align _ _ _) as [mz ez].
  apply binary_round_aux_opp.
Qed.

Lemma float_of_int_neg p :
  (exists x, float_of_int (Z.neg p) = Ok x) <-> (exists x, float_of_int (Z.pos p) = Ok x).
Proof.
  unfold float_of_int. cbn [binary_normalize]. rewrite binary_round_opp.
  destruct (binary_round prec emax false p 0) as [s|s| |s m e]; cbn [SFopp]; split;
    intros (x & H); try discriminate H; eauto.
Qed.

Lemma float_of_int_returns_iff i :
  (exists x, float_of_int i = Ok x) <-> - FLOAT_INT_LIMIT < i < FLOAT_INT_LIMIT.
Proof.
  assert (HL : 0 < FLOAT_INT_LIMIT) by reflexivity.
  assert (P : forall p, (exists x, float_of_int (Z.pos p) = Ok x) <->
                        Z.pos p < FLOAT_INT_LIMIT).
  { intros p. split.
    - intros (x & H). destruct (Z_lt_le_dec (Z.pos p) FLOAT_INT_LIMIT) as [|G]; [assumption|].
      rewrite (float_of_int_overflow _ G) in H. discriminate H.
    - intros H. destruct (float_of_int_ok (Z.pos p)) as (x & E & _); [lia|]. eauto. }
  destruct i as [|p|p].
  - split; [lia|]. intros _. eexists. reflexivity.
  - rewrite P. lia.
  - rewrite float_of_int_neg, P. lia.
Qed.

Lemma float_of_int_cases i :
  (exists x, float_of_int i = Ok x) \/
  float_of_int i = Raise (OverflowError "int too large to convert to float").
Proof.
  unfold float_of_int.
  destruct (binary_normalize prec emax i 0 false); eauto.
Qed.

(** X1: [total_cost] returns a number exactly for
    [-(2^1024 - 2^970) < credits < 2^1024 - 2^970 + 10], whatever the two
    rates are; for every other [credits] it raises [OverflowError]. *)
Theorem total_cost_domain (credits : Z) (first_10_rate after_10_rate : float) :
  ((exists y, total_cost credits first_10_rate after_10_rate = Ok y) <->
   - FLOAT_INT_LIMIT < credits < FLOAT_INT_LIMIT + 10) /\
  ((exists y, total_cost credits first_10_rate after_10_rate = Ok y) \/
   total_cost credits first_10_rate after_10_rate =
     Raise (OverflowError "int too large to convert to float")).
Proof.
  pose proof limit_above_ten as HL.
  unfold total_cost, int_mul_float. destruct (Z.leb_spec credits 10) as [Hle|Hgt].
  - pose proof (float_of_int_returns_iff credits) as I.
    destruct (float_of_int_cases credits) as [(x & E)|E]; rewrite E; cbn.
    + split; [|eauto]. split; [intros _|eauto].
      assert (exists x, float_of_int credits = Ok x) as K by eauto.
      apply I in K. lia.
    + split; [|auto]. split; [intros (y & H); discriminate H|].
      intros K. assert (- FLOAT_INT_LIMIT < credits < FLOAT_INT_LIMIT) as K' by lia.
      apply I in K' as (x & K'). congruence.
  - rewrite float_of_ten. cbn.
    pose proof (float_of_int_returns_iff (credits - 10)) as I.
    destruct (float_of_int_cases (credits - 10)) as [(x & E)|E]; rewrite E; cbn.
    + split; [|eauto]. split; [intros _|eauto].
      assert (exists x, float_of_int (credits - 10) = Ok x) as K by eauto.
      apply I in K. lia.
    + split; [|auto]. split; [intros (y & H); discriminate H|].
      intros K. assert (- FLOAT_INT_LIMIT < credits - 10 < FLOAT_INT_LIMIT) as K' by lia.
      apply I in K' as (x & K'). congruence.
Qed.

(** ** Sign and exactness of the result *)

Lemma nonneg_of_sf y : nonneg_sf (Prim2SF y) = true -> nonneg y.
Proof.
  intros N. unfold nonneg. apply leb_aval; [reflexivity|assumption|].
  change (aval (Prim2SF 0)) with 0. apply aval_nonneg, Prim2SF_valid.
Qed.

(** X2: for [1 <= credits < 2^1024 - 2^970 + 10] and rates [>= 0],
    [total_cost] returns a number [>= 0]; in particular it is never NaN and
    never negative. *)
Theorem total_cost_nonneg (credits : Z) (first_10_rate after_10_rate : float) :
  1 <= credits -> credits < FLOAT_INT_LIMIT + 10 ->
  nonneg first_10_rate -> nonneg after_10_rate ->
  exists y, total_cost credits first_10_rate after_10_rate = Ok y /\ nonneg y.
Proof.
  intros H1 Hlim Hf Ha.
  destruct (total_cost_value credits first_10_rate after_10_rate) as (y & E & N & _);
    [lia|assumption|assumption|].
  exists y. split; [assumption|]. apply nonneg_of_sf, N.
Qed.

Lemma total_cost_nonneg_witness :
  exists y, total_cost 15 274.84 208.68 = Ok y /\ nonneg y.
Proof.
  apply (total_cost_nonneg 15 274.84 208.68); [lia|by_eval|reflexivity|reflexivity].
Defined.

Lemma RN_exact S k : 1074 <= S -> 0 < k < 2 ^ 53 -> RN S (k * 2 ^ S) = k * 2 ^ 1074.
Proof.
  intros HS Hk. unfold RN.
  rewrite Z.log2_mul_pow2 by lia.
  pose proof (Z.log2_nonneg k) as L0.
  assert (L : Z.log2 k < 53) by (apply Z.log2_lt_pow2; lia).
  set (n := Z.max (S + Z.log2 k + 1 - 53) (S - 1074)).
  assert (Hn : S - 1074 <= n <= S) by lia.
  replace (k * 2 ^ S) with ((k * 2 ^ (S - n)) * 2 ^ n).
  - rewrite rne_exact by lia.
    rewrite <- Z.mul_assoc, <- Z.pow_add_r by lia. do 2 f_equal. lia.
  - rewrite <- Z.mul_assoc, <- Z.pow_add_r by lia. do 2 f_equal. lia.
Qed.

Lemma below_TOP k : 0 <= k < 2 ^ 53 -> k * 2 ^ 1074 < TOP.
Proof. intros Hk. apply (scaled_lt_TOP k 0); lia. Qed.

Lemma pmul_ival_exact i F :
  0 < i -> 0 <= F -> i * F < 2 ^ 53 ->
  pmul (ival i) (F * 2 ^ 1074) = i * F * 2 ^ 1074.
Proof.
  intros Hi HF Hp. pose proof (pow2_pos 1074 ltac:(lia)) as P. unfold pmul.
  destruct (Z.eqb_spec (F * 2 ^ 1074) 0) as [E|NE]; [nia|].
  assert (0 < F) by nia. assert (F < 2 ^ 53) by nia. assert (i < 2 ^ 53) by nia.
  pose proof (below_TOP F ltac:(lia)).
  destruct (Z.eqb_spec (F * 2 ^ 1074) TOP) as [E|_]; [lia|].
  rewrite ival_exact by lia.
  replace (i * 2 ^ 1074 * (F * 2 ^ 1074)) with ((i * F) * 2 ^ 2148).
  - rewrite RN_exact by nia. pose proof (below_TOP (i * F) ltac:(nia)). lia.
  - change 2148 with (1074 + 1074). rewrite Z.pow_add_r by lia. ring.
Qed.

Lemma whole_nonneg x n : whole x n -> 0 <= n /\ nonneg x.
Proof.
  intros [N A]. split; [|apply nonneg_of_sf, N].
  pose proof (aval_nonneg (Prim2SF x) (Prim2SF_valid x)) as H.
  pose proof (pow2_pos 1074 ltac:(lia)). rewrite A in H. nia.
Qed.

(** X3: for [1 <= credits < 2^1024 - 2^970 + 10], when both rates are whole
    numbers [F >= 0] and [A >= 0] and the tiered total [credits * F] (for
    [credits <= 10]) or [10 * F + (credits - 10) * A] (for [credits > 10]) is
    below [2^53], [total_cost] returns exactly that total: no rounding takes
    place. *)
Theorem total_cost_whole_rates (credits : Z) (first_10_rate after_10_rate : float)
    (F A : Z) :
  1 <= credits -> credits < FLOAT_INT_LIMIT + 10 ->
  whole first_10_rate F -> whole after_10_rate A ->
  tier_total credits F A < 2 ^ 53 ->
  exists y, total_cost credits first_10_rate after_10_rate = Ok y /\
            whole y (tier_total credits F A).
Proof.
  intros H1 Hlim Wf Wa HT.
  destruct (whole_nonneg _ _ Wf) as [HF Nf]. destruct (whole_nonneg _ _ Wa) as [HA Na].
  destruct (total_cost_value credits first_10_rate after_10_rate) as (y & E & N & V);
    [lia|assumption|assumption|].
  exists y. split; [assumption|]. split; [assumption|].
  destruct Wf as [_ Af]. destruct Wa as [_ Aa]. rewrite V, Af, Aa.
  unfold cost_value, tier_total in *.
  destruct (Z.leb_spec credits 10) as [Hle|Hgt].
  - apply pmul_ival_exact; lia.
  - assert (0 <= (credits - 10) * A) by nia.
    rewrite !pmul_ival_exact by nia.
    rewrite <- Z.mul_add_distr_r.
    set (T := 10 * F + (credits - 10) * A) in *.
    destruct (Z.eq_dec T 0) as [->|NT].
    + change (RN 1074 (0 * 2 ^ 1074)) with 0. pose proof TOP_pos. lia.
    + rewrite RN_exact by lia. pose proof (below_TOP T ltac:(lia)). lia.
Qed.

Lemma total_cost_whole_rates_witness :
  exists y, total_cost 12 100 50 = Ok y /\ whole y 1100.
Proof.
  apply (total_cost_whole_rates 12 100 50 100 50);
    [lia|by_eval|split; vm_compute; reflexivity|split; vm_compute; reflexivity|reflexivity].
Defined.

(** ** Errors and composition of [build_rows] *)

Lemma build_rows_first max_credits rates :
  1 <= max_credits ->
  build_rows max_credits rates =
  rbind (build_row rates 1)
        (fun r => build_rows_loop rates (range 2 (max_credits + 1)) [r]).
Proof.
  intros H. unfold build_rows. rewrite (range_cons 1) by lia. reflexivity.
Qed.

(** X4: when [rates] lacks one of the four keys and [max_credits >= 1],
    [build_rows] raises [KeyError] for a key that is missing, and returns no
    rows. *)
Theorem build_rows_missing_key (max_credits : Z) (rates : gmap string float)
    (key : string) :
  1 <= max_credits -> key ∈ rate_keys -> rates !! key = None ->
  exists missing, missing ∈ rate_keys /\ rates !! missing = None /\
                  build_rows max_credits rates = Raise (KeyError missing).
Proof.
  intros H1 Hk Hn. rewrite build_rows_first by assumption.
  assert (L : 1 <= 1 < FLOAT_INT_LIMIT + 10) by (split; [lia|by_eval]).
  unfold build_row, getitem, rate_keys, mbind, result_bind in *.
  destruct (rates !! "lower_first_10") as [lf|] eqn:E1; cbn [rbind];
    [|exists "lower_first_10"; repeat split; auto; repeat constructor].
  destruct (rates !! "lower_after_10") as [la|] eqn:E2; cbn [rbind];
    [|exists "lower_after_10"; repeat split; auto; repeat constructor].
  destruct (total_cost_ok 1 lf la L) as (lo & ->). cbn [rbind].
  destruct (rates !! "upper_first_10") as [uf|] eqn:E3; cbn [rbind];
    [|exists "upper_first_10"; repeat split; auto; repeat constructor].
  destruct (rates !! "upper_after_10") as [ua|] eqn:E4; cbn [rbind];
    [|exists "upper_after_10"; repeat split; auto; repeat constructor].
  exfalso. rewrite !elem_of_cons, elem_of_nil in Hk.
  destruct Hk as [->|[->|[->|[->|[]]]]]; congruence.
Qed.

Lemma build_rows_missing_key_witness :
  exists missing, missing ∈ rate_keys /\
    ({[ "lower_first_10" := 123.94%float ]} : gmap string float) !! missing = None /\
    build_rows 4 {[ "lower_first_10" := 123.94%float ]} = Raise (KeyError missing).
Proof.
  apply (build_rows_missing_key 4 {[ "lower_first_10" := 123.94%float ]} "upper_after_10").
  - lia.
  - repeat constructor.
  - reflexivity.
Defined.

Lemma build_rows_loop_prefix (n m : Z) (rates : gmap string float) (lf la uf ua : float) :
  rate_set rates lf la uf ua -> n <= m -> m < FLOAT_INT_LIMIT + 10 ->
  exists rows_n rows_m,
    build_rows n rates = Ok rows_n /\ build_rows m rates = Ok rows_m /\
    rows_n = take (Z.to_nat n) rows_m.
Proof.
  intros R Hnm Hlim.
  destruct (build_rows_returns n rates lf la uf ua R ltac:(lia)) as (rn & En & Ln & _).
  destruct (Z_le_gt_dec n 0) as [Hn|Hn].
  - destruct (build_rows_returns m rates lf la uf ua R Hlim) as (rm & Em & _).
    exists rn, rm. split; [assumption|]. split; [assumption|].
    replace (Z.to_nat n) with 0%nat in * by lia.
    destruct rn; [reflexivity|discriminate Ln].
  - unfold build_rows in *.
    rewrite (range_split 1 (n + 1) (m + 1)) by lia.
    rewrite build_rows_loop_app, En. cbn [rbind].
    destruct (build_rows_loop_ok rates (range (n + 1) (m + 1)) rn) as (new & E & _).
    { apply Forall_forall. intros c Hc. apply elem_of_range in Hc.
      destruct (build_row_ok rates lf la uf ua c R ltac:(lia)) as (lo & up & _ & _ & Er).
      eauto. }
    exists rn, (rn ++ new)%list. split; [reflexivity|]. split; [assumption|].
    rewrite <- Ln. symmetry. apply take_app_length.
Qed.

(** X6: a shorter table is the beginning of a longer one: when the table of
    [m] rows fits in the memory of the process and [n <= m], both calls
    return, and [build_rows(n)] is the first [n] rows of [build_rows(m)]. *)
Theorem build_rows_prefix (capacity n m : Z) (rates : gmap string float)
    (lf la uf ua : float) :
  rate_set rates lf la uf ua -> n <= m -> m <= Machine.room capacity ->
  exists rows_n rows_m,
    Machine.build_rows capacity n rates = Ok rows_n /\
    Machine.build_rows capacity m rates = Ok rows_m /\
    rows_n = take (Z.to_nat n) rows_m.
Proof.
  intros R Hnm Hroom.
  pose proof (room_le_list_max capacity). pose proof list_max_below_limit.
  rewrite !machine_build_rows_fits by lia.
  apply (build_rows_loop_prefix n m rates lf la uf ua R Hnm). lia.
Qed.

Lemma build_rows_prefix_witness :
  exists rows_n rows_m,
    Machine.build_rows 1000 2
      {[ "lower_first_10" := 123.94%float; "lower_after_10" := 57.78%float;
         "upper_first_10" := 133.54%float; "upper_after_10" := 67.38%float ]}
      = Ok rows_n /\
    Machine.build_rows 1000 12
      {[ "lower_first_10" := 123.94%float; "lower_after_10" := 57.78%float;
         "upper_first_10" := 133.54%float; "upper_after_10" := 67.38%float ]}
      = Ok rows_m /\
    rows_n = take (Z.to_nat 2) rows_m.
Proof.
  apply (build_rows_prefix 1000 2 12 _ 123.94 57.78 133.54 67.38);
    [split; reflexivity|lia|by_eval].
Defined.

Lemma total_cost_ordered c1 c2 f a y1 y2 :
  nonneg f -> nonneg a -> 1 <= c1 -> c1 <= c2 -> c2 < FLOAT_INT_LIMIT + 10 ->
  total_cost c1 f a = Ok y1 -> total_cost c2 f a = Ok y2 ->
  (y1 <=? y2)%float = true.
Proof.
  intros Hf Ha H1 H12 Hlim E1 E2.
  destruct (total_cost_value c1 f a) as (z1 & F1 & N1 & A1); [lia|assumption|assumption|].
  destruct (total_cost_value c2 f a) as (z2 & F2 & N2 & A2); [lia|assumption|assumption|].
  assert (z1 = y1) by congruence. assert (z2 = y2) by congruence. subst z1 z2.
  apply leb_aval; [assumption|assumption|]. rewrite A1, A2.
  apply cost_value_mono; try assumption.
  - apply aval_nonneg, Prim2SF_valid.
  - apply aval_nonneg, Prim2SF_valid.
  - apply ten_times_representable. assumption.
Qed.

(** X7: with the four rates [>= 0] and a table that fits in the memory of
    the process, the table that [build_rows] returns is ordered: the row at
    index [i] has credit count [i + 1], and going down the table neither the
    lower-division total nor the upper-division total decreases. *)
Theorem build_rows_ordered (capacity max_credits : Z) (rates : gmap string float)
    (lf la uf ua : float) :
  rate_set rates lf la uf ua ->
  nonneg lf -> nonneg la -> nonneg uf -> nonneg ua ->
  max_credits <= Machine.room capacity ->
  exists rows,
    Machine.build_rows capacity max_credits rates = Ok rows /\
    forall (i j : nat) ci li ui cj lj uj,
      (i <= j)%nat ->
      rows !! i = Some (ci, li, ui) -> rows !! j = Some (cj, lj, uj) ->
      ci = Z.of_nat i + 1 /\ cj = Z.of_nat j + 1 /\
      (li <=? lj)%float = true /\ (ui <=? uj)%float = true.
Proof.
  intros R Hlf Hla Huf Hua Hroom.
  assert (Hlim : max_credits < FLOAT_INT_LIMIT + 10).
  { pose proof (room_le_list_max capacity). pose proof list_max_below_limit. lia. }
  destruct (machine_build_rows_returns capacity max_credits rates lf la uf ua R Hroom)
    as (rows & E & L & F).
  exists rows. split; [assumption|].
  assert (K : forall (k : nat) c l u, rows !! k = Some (c, l, u) ->
            c = Z.of_nat k + 1 /\ 1 <= c < FLOAT_INT_LIMIT + 10 /\
            total_cost c lf la = Ok l /\ total_cost c uf ua = Ok u).
  { intros k c l u Hk.
    destruct (Forall2_lookup_r _ _ _ _ _ F Hk) as (c' & Hc & Hb).
    assert (Hlt : (k < Z.to_nat (max_credits + 1 - 1))%nat).
    { apply lookup_lt_Some in Hc. rewrite length_range in Hc. exact Hc. }
    rewrite lookup_range in Hc by assumption.
    assert (c' = 1 + Z.of_nat k) by congruence. subst c'.
    destruct (build_row_ok rates lf la uf ua (1 + Z.of_nat k) R ltac:(lia))
      as (lo & up & Elo & Eup & Er).
    assert ((c, l, u) = (1 + Z.of_nat k, lo, up)) as Q by congruence.
    inversion Q; subst. repeat split; try assumption; lia. }
  intros i j ci li ui cj lj uj Hij Hi Hj.
  destruct (K i ci li ui Hi) as (-> & Bi & Eli & Eui).
  destruct (K j cj lj uj Hj) as (-> & Bj & Elj & Euj).
  split; [reflexivity|]. split; [reflexivity|]. split.
  - apply (total_cost_ordered (Z.of_nat i + 1) (Z.of_nat j + 1) lf la); auto; lia.
  - apply (total_cost_ordered (Z.of_nat i + 1) (Z.of_nat j + 1) uf ua); auto; lia.
Qed.

Lemma build_rows_ordered_witness :
  exists rows,
    Machine.build_rows 1000 20
      {[ "lower_first_10" := 274.84%float; "lower_after_10" := 208.68%float;
         "upper_first_10" := 284.44%float; "upper_after_10" := 218.28%float ]}
      = Ok rows /\
    forall (i j : nat) ci li ui cj lj uj,
      (i <= j)%nat ->
      rows !! i = Some (ci, li, ui) -> rows !! j = Some (cj, lj, uj) ->
      ci = Z.of_nat i + 1 /\ cj = Z.of_nat j + 1 /\
      (li <=? lj)%float = true /\ (ui <=? uj)%float = true.
Proof.
  apply (build_rows_ordered 1000 20 _ 274.84 208.68 284.44 218.28);
    [split; reflexivity|reflexivity|reflexivity|reflexivity|reflexivity|by_eval].
Defined.

(** ** Runs of the program *)

Lemma table_lookup name rates :
  TUITION_RATES !! name = Some rates ->
  (name = "resident" /\ rate_set rates 123.94 57.78 133.54 67.38) \/
  (name = "non-resident" /\ rate_set rates 274.84 208.68 284.44 218.28).
Proof.
  intros H.
  assert (D : name ∈ dom TUITION_RATES) by (apply elem_of_dom; eauto).
  unfold TUITION_RATES in D.
  rewrite dom_insert_L, dom_singleton_L, elem_of_union, !elem_of_singleton in D.
  destruct D as [-> | ->].
  - left. split; [reflexivity|]. destruct resident_rates as (r & E & R). congruence.
  - right. split; [reflexivity|]. destruct non_resident_rates as (r & E & R). congruence.
Qed.

Lemma rates_line_of rates lf la uf ua :
  rate_set rates lf la uf ua ->
  rates_line rates =
  Ok ("Rates used: lower 1-10=$" +:+ format_2f lf +:+
      ", lower 11+=$" +:+ format_2f la +:+
      ", upper 1-10=$" +:+ format_2f uf +:+
      ", upper 11+=$" +:+ format_2f ua).
Proof.
  intros [R1 R2 R3 R4]. unfold rates_line, getitem. rewrite R1, R2, R3, R4. reflexivity.
Qed.

Lemma rates_line_choices name rates :
  TUITION_RATES !! name = Some rates ->
  exists line,
    rates_line rates = Ok line /\
    (name = "resident" ->
       line = "Rates used: lower 1-10=$123.94, lower 11+=$57.78, upper 1-10=$133.54, upper 11+=$67.38") /\
    (name = "non-resident" ->
       line = "Rates used: lower 1-10=$274.84, lower 11+=$208.68, upper 1-10=$284.44, upper 11+=$218.28").
Proof.
  intros T. destruct (table_lookup _ _ T) as [[-> R]|[-> R]];
    rewrite (rates_line_of rates _ _ _ _ R); eexists; (split; [reflexivity|]);
    split; intros Hres; first [reflexivity | discriminate Hres].
Qed.

(** X9: a run with a valid residency and [max_credits >= 1] whose table fits
    in the memory of the process, with [openpyxl] available, an output path
    that [workbook.save] can write and a standard output that takes the
    lines, exits with code 0, writes nothing on standard error, prints
    [Created <filename>] and then the line of the four rates with two
    decimals, and writes one file, the one named by the output filename;
    every other file is as it was. *)
Theorem run_success (ev : env) (args : Namespace) (w : world) :
  residency args ∈ choices ->
  1 <= max_credits args -> max_credits args <= Machine.room (capacity ev) ->
  openpyxl_available ev = true ->
  save ev (output_filename args) = Saved ->
  standard_output ev = Accepting ->
  exists content line,
    (run ev args w).2 = 0 /\
    stderr (run ev args w).1 = stderr w /\
    stdout (run ev args w).1 =
      (stdout w ++ ["Created " +:+ output_filename args; line])%list /\
    files (run ev args w).1 = <[output_filename args := content]> (files w) /\
    (residency args = "resident" ->
       line = "Rates used: lower 1-10=$123.94, lower 11+=$57.78, upper 1-10=$133.54, upper 11+=$67.38") /\
    (residency args = "non-resident" ->
       line = "Rates used: lower 1-10=$274.84, lower 11+=$208.68, upper 1-10=$284.44, upper 11+=$218.28").
Proof.
  intros Hr H1 Hroom Ho Hs Hout. unfold run. rewrite decide_True by assumption.
  unfold at_exit. rewrite Hout. unfold main.
  destruct (Z.ltb_spec (max_credits args) 1); [lia|].
  destruct (getitem_choices _ Hr) as (rates & lf & la & uf & ua & E & R).
  rewrite E.
  destruct (machine_build_rows_returns (capacity ev) (max_credits args) rates
              lf la uf ua R Hroom) as (rows & Eb & _).
  rewrite Eb. unfold write_xlsx. rewrite Ho, Hs. cbn [negb].
  assert (T : TUITION_RATES !! residency args = Some rates).
  { unfold getitem in E. destruct (TUITION_RATES !! residency args); congruence. }
  destruct (rates_line_choices _ _ T) as (line & El & Lr & Ln).
  unfold report_success, print. rewrite Hout, El.
  eexists. exists line.
  split; [reflexivity|]. split; [reflexivity|].
  split; [cbn; rewrite <- app_assoc; reflexivity|].
  split; [reflexivity|]. split; assumption.
Qed.

Lemma run_success_witness :
  exists content line,
    (run (desk true) {| residency := "resident"; max_credits := 3; output := None |}
         nothing).2 = 0 /\
    files (run (desk true)
             {| residency := "resident"; max_credits := 3; output := None |}
             nothing).1
      = <["tuition_resident_1_to_3.xlsx" := content]> ∅ /\
    line = "Rates used: lower 1-10=$123.94, lower 11+=$57.78, upper 1-10=$133.54, upper 11+=$67.38".
Proof.
  destruct (run_success (desk true)
              {| residency := "resident"; max_credits := 3; output := None |} nothing)
    as (content & line & C & _ & _ & F & Lr & _).
  - apply list_elem_of_here.
  - simpl. lia.
  - by_eval.
  - reflexivity.
  - reflexivity.
  - reflexivity.
  - exists content, line. split; [exact C|]. split; [exact F|]. apply Lr. reflexivity.
Defined.

Lemma report_success_files ev args rates w :
  files (report_success ev args rates w).1 = files w.
Proof.
  unfold report_success, print.
  destruct (standard_output ev); cbn; try reflexivity;
    destruct (rates_line rates); reflexivity.
Qed.

Lemma main_files ev args w :
  files (main ev args w).1 = files w \/
  exists content, files (main ev args w).1 = <[output_filename args := content]> (files w).
Proof.
  unfold main.
  destruct (max_credits args <? 1); [left; reflexivity|].
  destruct (getitem TUITION_RATES (residency args)) as [rates|e]; [|left; reflexivity].
  destruct (Machine.build_rows (capacity ev) (max_credits args) rates) as [rows|e];
    [|left; reflexivity].
  unfold write_xlsx. destruct (openpyxl_available ev); cbn [negb]; [|left; reflexivity].
  destruct (save ev (output_filename args)) as [|report [part|]].
  - right. eexists. rewrite report_success_files. reflexivity.
  - right. eexists. reflexivity.
  - left. reflexivity.
Qed.

Lemma at_exit_files ev w ending : files (at_exit ev w ending).1 = files ending.1.
Proof.
  unfold at_exit. destruct (standard_output ev); try reflexivity.
  destruct (bool_decide (stdout ending.1 = stdout w)); reflexivity.
Qed.

(** X10: the only file that a run can create or change is the one named by
    the output filename: after every run the files are as they were before,
    or as they were but for the file of that name. *)
Theorem run_writes_one_path (ev : env) (args : Namespace) (w : world) :
  files (run ev args w).1 = files w \/
  exists content,
    files (run ev args w).1 = <[output_filename args := content]> (files w).
Proof.
  unfold run. destruct (decide (residency args ∈ choices)) as [Hr|Hr].
  - rewrite at_exit_files.
    pose proof (main_files ev args w) as M.
    destruct (main ev args w) as [w' [code|err]]; cbn [fst] in *; [exact M|].
    destruct (print_err_lines_app (traceback ev err) w') as (_ & _ & ->). exact M.
  - cbn [fst]. destruct (print_err_lines_app (usage_error ev (residency args)) w)
      as (_ & _ & ->). left. reflexivity.
Qed.

(** ** Output file names *)

Lemma string_length_app s t :
  String.length (s +:+ t) = (String.length s + String.length t)%nat.
Proof.
  induction s as [|a s IH]; [reflexivity|].
  change (S (String.length (s +:+ t)) = S (String.length s + String.length t)).
  f_equal. exact IH.
Qed.

Lemma string_app_inj_r s1 s2 t : s1 +:+ t = s2 +:+ t -> s1 = s2.
Proof.
  revert s2. induction s1 as [|a s1 IH]; intros [|b s2] H.
  - reflexivity.
  - apply (f_equal String.length) in H. rewrite !string_length_app in H.
    cbn [String.length] in H. lia.
  - apply (f_equal String.length) in H. rewrite !string_length_app in H.
    cbn [String.length] in H. lia.
  - change (String a (s1 +:+ t) = String b (s2 +:+ t)) in H.
    injection H as -> H. f_equal. apply IH, H.
Qed.

(** X11: without a (non-empty) [--output] value, distinct valid
    invocations get distinct file names: if two default output filenames are
    equal, the residencies are equal and the credit limits are equal. *)
Theorem default_filename_injective (args1 args2 : Namespace) :
  residency args1 ∈ choices -> residency args2 ∈ choices ->
  truthy (output args1) = false -> truthy (output args2) = false ->
  output_filename args1 = output_filename args2 ->
  residency args1 = residency args2 /\ max_credits args1 = max_credits args2.
Proof.
  unfold output_filename, choices. rewrite !elem_of_cons, !elem_of_nil.
  intros [E1|[E1|[]]] [E2|[E2|[]]] -> ->; rewrite E1, E2; intros H;
    try (cbn in H; discriminate H).
  - split; [reflexivity|]. apply String.app_inj in H. apply String.app_inj in H.
    apply String.app_inj in H. apply string_app_inj_r in H.
    apply pretty_Z_inj in H. exact H.
  - split; [reflexivity|]. apply String.app_inj in H. apply String.app_inj in H.
    apply String.app_inj in H. apply string_app_inj_r in H.
    apply pretty_Z_inj in H. exact H.
Qed.

Lemma default_filename_injective_witness :
  residency {| residency := "resident"; max_credits := 15; output := None |} =
  residency {| residency := "resident"; max_credits := 15; output := Some "" |} /\
  max_credits {| residency := "resident"; max_credits := 15; output := None |} =
  max_credits {| residency := "resident"; max_credits := 15; output := Some "" |}.
Proof.
  apply (default_filename_injective
           {| residency := "resident"; max_credits := 15; output := None |}
           {| residency := "resident"; max_credits := 15; output := Some "" |});
    try reflexivity; apply list_elem_of_here.
Defined.

(** ** List objects *)

Lemma heap_build_rows_ok max_credits rates (st st1 : Heap.store) l1 :
  Heap.build_rows max_credits rates st = (st1, Ok l1) ->
  l1 = fresh (dom st) /\ is_Some (st1 !! l1).
Proof.
  unfold Heap.build_rows, Heap.new_list.
  set (l := fresh (dom st)).
  destruct (heap_loop_refines rates (range 1 (max_credits + 1)) l (<[l := []]> st) [])
    as (st' & _ & H).
  { apply lookup_insert_eq. }
  destruct (build_rows_loop rates (range 1 (max_credits + 1)) []) as [out|e].
  - destruct H as [E Hl]. rewrite E. intros Q. inversion Q; subst. eauto.
  - rewrite H. discriminate.
Qed.

(** X12: the list that [build_rows] returns is a new object: no list of the
    store before the call is behind the returned reference, every list that
    existed keeps its rows, and a second call returns a different reference
    and leaves the rows of the first result as they are. *)
Theorem build_rows_fresh_list (max_credits : Z) (rates : gmap string float)
    (st st1 : Heap.store) (l1 : nat) :
  Heap.build_rows max_credits rates st = (st1, Ok l1) ->
  st !! l1 = None /\
  (forall l rows, st !! l = Some rows -> st1 !! l = Some rows) /\
  (forall n' rates' st2 l2,
     Heap.build_rows n' rates' st1 = (st2, Ok l2) ->
     l2 <> l1 /\ st2 !! l1 = st1 !! l1).
Proof.
  intros H. destruct (heap_build_rows_ok _ _ _ _ _ H) as [Hl [rows1 Hs]].
  split; [|split].
  - rewrite Hl. apply not_elem_of_dom, is_fresh.
  - intros l rows Hlr.
    pose proof (heap_build_rows_frame max_credits rates st l rows Hlr) as Fr.
    rewrite H in Fr. exact Fr.
  - intros n' rates' st2 l2 H2.
    destruct (heap_build_rows_ok _ _ _ _ _ H2) as [Hl2 _]. split.
    + intros ->. apply (is_fresh (dom st1)). rewrite <- Hl2.
      apply elem_of_dom. eauto.
    + pose proof (heap_build_rows_frame n' rates' st1 l1 rows1 Hs) as Fr.
      rewrite H2 in Fr. cbn in Fr. congruence.
Qed.

Lemma build_rows_fresh_list_witness :
  let rates : gmap string float :=
    {[ "lower_first_10" := 123.94%float; "lower_after_10" := 57.78%float;
       "upper_first_10" := 133.54%float; "upper_after_10" := 67.38%float ]} in
  let st : Heap.store := {[ 0%nat := [(1, 274.84%float, 284.44%float)] ]} in
  exists st1 l1,
    Heap.build_rows 2 rates st = (st1, Ok l1) /\
    st !! l1 = None /\
    st1 !! 0%nat = Some [(1, 274.84%float, 284.44%float)].
Proof.
  intros rates st.
  destruct (Heap.build_rows 2 rates st) as [st1 [l1|err]] eqn:Hb;
    [|vm_compute in Hb; discriminate Hb].
  exists st1, l1. split; [reflexivity|].
  destruct (build_rows_fresh_list 2 rates st st1 l1 Hb) as (Hn & Hk & _).
  split; [exact Hn|]. apply Hk. reflexivity.
Defined.
